(** * Task Manager backend: the in-memory store and its HTTP handlers

    A shallow embedding of [app/models.py], [app/store.py] and [app/main.py]
    of the polyglot-fullstack example backend, with the properties its
    specification states about them.

    Conventions of the embedding:
    - a Python [str] is the list of its code points, so [len] is
      [length]; a code point is at most 0x10FFFF, and a [str] may hold
      surrogates (0xD800 to 0xDFFF), which Unicode text may not;
    - a [datetime] (always UTC here) is the integer number of microseconds
      since the epoch, so Python's comparison of instants is [Z.le];
    - a [UUID] is its 128-bit integer value;
    - Python's [None] in a field is [None] of [option];
    - the two reads of the environment, [datetime.now(UTC)] and [uuid4()],
      are explicit arguments of the operation that performs them;
    - a method of [TaskStore] that mutates [self._tasks] returns the new
      store next to its result. *)

From Stdlib Require Import ZArith NArith List Bool Lia String Ascii.
From Stdlib Require Import Permutation Sorted.
Import ListNotations.

Set Implicit Arguments.

(** ** Basic data *)

Definition codepoint := N.
Definition str := list codepoint.
Definition datetime := Z.
Definition UUID := N.

Bind Scope Z_scope with datetime.
Bind Scope N_scope with UUID codepoint.

(** A literal of the source, as a Python string. *)
Definition str_of (s : string) : str :=
  map N_of_ascii (list_ascii_of_string s).

Definition str_eqb (a b : str) : bool :=
  if list_eq_dec N.eq_dec a b then true else false.

(** A Unicode scalar value: a code point that is not a surrogate. *)
Definition is_scalar (c : codepoint) : bool :=
  N.ltb c 55296 || (N.ltb 57343 c && N.leb c 1114111).

(** Unicode text: what can be encoded as UTF-8. *)
Definition is_text (s : str) : bool := forallb is_scalar s.

(** ** models.py *)

Module TaskCreate.
(** [title: str = Field(..., min_length=1, max_length=200)] *)
Record t := mk { title : str }.
End TaskCreate.

Module TaskUpdate.
(** Both fields default to [None]; [model_fields_set] records which of
    them the caller supplied (pydantic keeps it next to the values). It
    is a subset of the two field names, kept as one flag per name. *)
Record t := mk {
  title : option str;
  completed : option bool;
  title_set : bool;
  completed_set : bool
}.
End TaskUpdate.

(** [Task]. The declared types are [str] and [bool]; the fields are options
    because [model_copy(update=...)] stores what it is given without
    validating it, so a field of a stored task can hold [None]. *)
Record Task := mkTask {
  id : UUID;
  title : option str;
  completed : option bool;
  created_at : datetime;
  updated_at : datetime
}.

Module HealthResponse.
Record t := mk { status : str; version : str }.
Definition default : t := mk (str_of "healthy") (str_of "1.0.0").
End HealthResponse.

(** The keyword dictionary that [TaskStore.update] builds: each key is
    present with a value, or absent. *)
Record update_dict := mkUpdateDict {
  key_title : option (option str);
  key_completed : option (option bool);
  key_updated_at : option datetime
}.

(** [data.model_dump(exclude_unset=True)]: the fields of
    [model_fields_set] with their values. *)
Definition model_dump_exclude_unset (data : TaskUpdate.t) : update_dict :=
  {| key_title :=
       if TaskUpdate.title_set data then Some (TaskUpdate.title data) else None;
     key_completed :=
       if TaskUpdate.completed_set data
       then Some (TaskUpdate.completed data) else None;
     key_updated_at := None |}.

(** Truth value of a dictionary: it has at least one key. *)
Definition dict_nonempty (d : update_dict) : bool :=
  match key_title d, key_completed d, key_updated_at d with
  | None, None, None => false
  | _, _, _ => true
  end.

(** [update_data["updated_at"] = now] *)
Definition set_updated_at (now : datetime) (d : update_dict) : update_dict :=
  {| key_title := key_title d;
     key_completed := key_completed d;
     key_updated_at := Some now |}.

(** [task.model_copy(update=update_data)]: a copy in which every key of the
    dictionary replaces the field of that name, without validation. *)
Definition model_copy (task : Task) (update : update_dict) : Task :=
  {| id := id task;
     title := match key_title update with
              | Some v => v
              | None => title task
              end;
     completed := match key_completed update with
                  | Some v => v
                  | None => completed task
                  end;
     created_at := created_at task;
     updated_at := match key_updated_at update with
                   | Some v => v
                   | None => updated_at task
                   end |}.

(** ** The dictionary [_tasks]

    A Python [dict] keeps its keys in insertion order, and [list_all] sorts
    its values with a stable sort, so the order is part of the state: the
    dictionary is an association list in insertion order. *)

Definition dict := list (UUID * Task).

Definition keys (d : dict) : list UUID := map fst d.
Definition values (d : dict) : list Task := map snd d.

(** [d.get(k)] *)
Fixpoint dict_get (k : UUID) (d : dict) : option Task :=
  match d with
  | [] => None
  | (k', v) :: rest => if N.eqb k k' then Some v else dict_get k rest
  end.

(** [k in d] *)
Definition dict_contains (k : UUID) (d : dict) : bool :=
  match dict_get k d with
  | Some _ => true
  | None => false
  end.

(** [d[k] = v]: an existing key keeps its position, a new key goes last. *)
Fixpoint dict_set (k : UUID) (v : Task) (d : dict) : dict :=
  match d with
  | [] => [(k, v)]
  | (k', v') :: rest =>
      if N.eqb k k' then (k, v) :: rest else (k', v') :: dict_set k v rest
  end.

(** [del d[k]] *)
Fixpoint dict_del (k : UUID) (d : dict) : dict :=
  match d with
  | [] => []
  | (k', v') :: rest =>
      if N.eqb k k' then rest else (k', v') :: dict_del k rest
  end.

(** A dictionary has each key once. *)
Definition wf_dict (d : dict) : Prop := NoDup (keys d).

(** ** [sorted(xs, key=..., reverse=True)]

    Python's sort is stable, also with [reverse=True]: elements with equal
    keys keep their original order. The stable sorted arrangement of a list
    is unique, so it is given here by insertion, each element going in
    front of the first one whose key is not larger. *)

Section Sorted.
Variable A : Type.
Variable key : A -> Z.

Fixpoint insert_desc (x : A) (l : list A) : list A :=
  match l with
  | [] => [x]
  | y :: rest =>
      if Z.leb (key y) (key x) then x :: y :: rest
      else y :: insert_desc x rest
  end.

Fixpoint sorted_reverse (l : list A) : list A :=
  match l with
  | [] => []
  | x :: rest => insert_desc x (sorted_reverse rest)
  end.
End Sorted.

(** ** store.py *)

Record TaskStore := mkStore { _tasks : dict }.

(** [TaskStore()] *)
Definition init : TaskStore := {| _tasks := [] |}.

Definition list_all (self : TaskStore) : list Task :=
  sorted_reverse created_at (values (_tasks self)).

Definition get (self : TaskStore) (task_id : UUID) : option Task :=
  dict_get task_id (_tasks self).

(** [now] is the value of [datetime.now(UTC)] and [uuid4] that of
    [uuid4()] in this call. *)
Definition create (now : datetime) (uuid4 : UUID)
    (self : TaskStore) (data : TaskCreate.t) : Task * TaskStore :=
  let task := {| id := uuid4;
                 title := Some (TaskCreate.title data);
                 completed := Some false;
                 created_at := now;
                 updated_at := now |} in
  (task, {| _tasks := dict_set (id task) task (_tasks self) |}).

(** [now] is the value of [datetime.now(UTC)], read only on the branch
    that applies an update. *)
Definition update (now : datetime)
    (self : TaskStore) (task_id : UUID) (data : TaskUpdate.t)
    : option Task * TaskStore :=
  match dict_get task_id (_tasks self) with
  | None => (None, self)
  | Some task =>
      let update_data := model_dump_exclude_unset data in
      if dict_nonempty update_data then
        let update_data := set_updated_at now update_data in
        let updated_task := model_copy task update_data in
        (Some updated_task,
         {| _tasks := dict_set task_id updated_task (_tasks self) |})
      else (Some task, self)
  end.

Definition delete (self : TaskStore) (task_id : UUID) : bool * TaskStore :=
  if dict_contains task_id (_tasks self)
  then (true, {| _tasks := dict_del task_id (_tasks self) |})
  else (false, self).

Definition clear (self : TaskStore) : TaskStore := {| _tasks := [] |}.

(** The calls of the store as data, to speak of sequences of them. A call
    that reads the clock or draws an identifier carries what it read. *)
Inductive Call :=
| ListAll
| Get (task_id : UUID)
| Create (now : datetime) (uuid4 : UUID) (data : TaskCreate.t)
| Update (now : datetime) (task_id : UUID) (data : TaskUpdate.t)
| Delete (task_id : UUID)
| Clear.

Inductive Outcome :=
| Listed (tasks : list Task)
| Got (task : option Task)
| Created (task : Task)
| Updated (task : option Task)
| Deleted (existed : bool)
| Cleared.

Definition call (c : Call) (self : TaskStore) : Outcome * TaskStore :=
  match c with
  | ListAll => (Listed (list_all self), self)
  | Get task_id => (Got (get self task_id), self)
  | Create now uuid4 data =>
      let (task, self') := create now uuid4 self data in (Created task, self')
  | Update now task_id data =>
      let (task, self') := update now self task_id data in (Updated task, self')
  | Delete task_id =>
      let (existed, self') := delete self task_id in (Deleted existed, self')
  | Clear => (Cleared, clear self)
  end.

Definition run (calls : list Call) (self : TaskStore) : TaskStore :=
  fold_left (fun s c => snd (call c s)) calls self.

(** The clock values a sequence of calls carries, in order. *)
Definition clock_of (c : Call) : list datetime :=
  match c with
  | Create now _ _ => [now]
  | Update now _ _ => [now]
  | _ => []
  end.

Definition clock_reads (calls : list Call) : list datetime :=
  flat_map clock_of calls.

(** ** Request validation (the constraints declared in models.py)

    The fields of a request body after JSON decoding: each declared field
    is missing, is [null], or has a value the declared type takes. For
    [title] these values are the JSON strings; for [completed] they are
    what pydantic reads as a boolean. *)

Inductive body_field (A : Type) : Type :=
| Missing
| Null
| Value (a : A).
Arguments Missing {A}.
Arguments Null {A}.
Arguments Value {A} a.

Definition field_value {A} (f : body_field A) : option A :=
  match f with
  | Value a => Some a
  | _ => None
  end.

Definition field_set {A} (f : body_field A) : bool :=
  match f with
  | Missing => false
  | _ => true
  end.

Module CreateBody.
Record t := mk { title : body_field str }.
End CreateBody.

Module UpdateBody.
Record t := mk { title : body_field str; completed : body_field bool }.
End UpdateBody.

(** [min_length=1, max_length=200] *)
Definition length_ok (s : str) : bool :=
  Nat.leb 1 (List.length s) && Nat.leb (List.length s) 200.

(** A string field with the two length constraints: pydantic first wants
    the string to be Unicode text, then counts its code points. *)
Definition string_ok (s : str) : bool := is_text s && length_ok s.

(** [TaskCreate]: [title] is required ([...]) and is a [str], so a missing
    or [null] title is refused like a string that is no text or has a
    wrong length. *)
Definition validate_TaskCreate (body : CreateBody.t) : option TaskCreate.t :=
  match CreateBody.title body with
  | Value s => if string_ok s then Some (TaskCreate.mk s) else None
  | _ => None
  end.

(** [TaskUpdate]: both fields are [... | None] with default [None]; the
    constraints bear on a title that is a string. *)
Definition validate_TaskUpdate (body : UpdateBody.t) : option TaskUpdate.t :=
  let accepted :=
    match UpdateBody.title body with
    | Value s => string_ok s
    | _ => true
    end in
  if accepted then
    Some {| TaskUpdate.title := field_value (UpdateBody.title body);
            TaskUpdate.completed := field_value (UpdateBody.completed body);
            TaskUpdate.title_set := field_set (UpdateBody.title body);
            TaskUpdate.completed_set := field_set (UpdateBody.completed body) |}
  else None.

(** ** main.py *)

Record HTTPException := mkHTTPException {
  status_code : Z;
  detail : str
}.

Definition HTTP_200_OK : Z := 200.
Definition HTTP_201_CREATED : Z := 201.
Definition HTTP_204_NO_CONTENT : Z := 204.
Definition HTTP_404_NOT_FOUND : Z := 404.
Definition HTTP_422_UNPROCESSABLE : Z := 422.

Definition task_not_found : HTTPException :=
  {| status_code := HTTP_404_NOT_FOUND; detail := str_of "Task not found" |}.

(** The handlers read and write the module-level [store]; here it is passed
    in and returned. A raised [HTTPException] is the left injection. *)

Definition health_check : HealthResponse.t := HealthResponse.default.

Definition list_tasks (store : TaskStore) : list Task := list_all store.

Definition create_task (now : datetime) (uuid4 : UUID)
    (store : TaskStore) (data : TaskCreate.t) : Task * TaskStore :=
  create now uuid4 store data.

Definition get_task (store : TaskStore) (task_id : UUID)
    : HTTPException + Task :=
  match get store task_id with
  | None => inl task_not_found
  | Some task => inr task
  end.

Definition update_task (now : datetime)
    (store : TaskStore) (task_id : UUID) (data : TaskUpdate.t)
    : (HTTPException + Task) * TaskStore :=
  let (task, store') := update now store task_id data in
  match task with
  | None => (inl task_not_found, store')
  | Some task => (inr task, store')
  end.

Definition delete_task (store : TaskStore) (task_id : UUID)
    : (HTTPException + unit) * TaskStore :=
  let (existed, store') := delete store task_id in
  if negb existed then (inl task_not_found, store') else (inr tt, store').

(** *** Requests and responses *)

(** The route [/api/tasks/{task_id}] matches a path whose last part is not
    empty and has no slash; a path is decoded from UTF-8, so it is Unicode
    text. Other paths are answered by the router and reach no handler. *)
Definition slash : codepoint := 47%N.

Definition is_segment (s : str) : bool :=
  match s with
  | [] => false
  | _ => forallb (fun c => negb (N.eqb c slash)) s && is_text s
  end.

Record segment := mkSegment {
  segment_text :> str;
  segment_ok : is_segment segment_text = true
}.

(** A body is either one whose declared keys have values their types take
    (or [null], or nothing), given by its fields, or one that is mistyped:
    some declared key has a value of another type (a number for [title],
    ["maybe"] for [completed]), or the body is no JSON object. The other
    keys of a body, which validation ignores, are left out, and a mistyped
    body is one made of Unicode text. *)
Inductive PostBody :=
| PostFields (fields : CreateBody.t)
| PostMistyped.

Inductive PatchBody :=
| PatchFields (fields : UpdateBody.t)
| PatchMistyped.

Coercion PostFields : CreateBody.t >-> PostBody.
Coercion PatchFields : UpdateBody.t >-> PatchBody.

(** The requests that the six routes take, each with what its route
    extracts from the path and with its body. *)
Inductive Request :=
| GET_health
| GET_tasks
| POST_tasks (body : PostBody)
| GET_task (task_id : segment)
| PATCH_task (task_id : segment) (body : PatchBody)
| DELETE_task (task_id : segment).

Inductive Content :=
| HealthJSON (h : HealthResponse.t)
| TaskListJSON (tasks : list Task)
| TaskJSON (task : Task)
| NoBody
| DetailJSON (detail : str)
| ValidationErrorsJSON
| InternalServerErrorText.

Record Response := mkResponse {
  status : Z;
  content : Content
}.

Definition of_exception (e : HTTPException) : Response :=
  {| status := status_code e; content := DetailJSON (detail e) |}.

Definition not_found : Response := of_exception task_not_found.

(** What the framework answers when a path parameter or the body does not
    validate against the handler's annotations: the handler is not run. *)
Definition unprocessable : Response :=
  {| status := HTTP_422_UNPROCESSABLE; content := ValidationErrorsJSON |}.

Definition internal_server_error : Response :=
  {| status := 500; content := InternalServerErrorText |}.

(** The 422 response reports each refused input. A refused title string
    that is not Unicode text cannot be encoded into that report, and the
    answer is then 500. *)
Definition reportable (title : body_field str) : bool :=
  match title with
  | Value s => is_text s
  | _ => true
  end.

Definition refusal (title : body_field str) : Response :=
  if reportable title then unprocessable else internal_server_error.

(** Validation of a body as a whole. *)
Definition validate_post (body : PostBody) : option TaskCreate.t :=
  match body with
  | PostFields fields => validate_TaskCreate fields
  | PostMistyped => None
  end.

Definition validate_patch (body : PatchBody) : option TaskUpdate.t :=
  match body with
  | PatchFields fields => validate_TaskUpdate fields
  | PatchMistyped => None
  end.

Definition refusal_post (body : PostBody) : Response :=
  match body with
  | PostFields fields => refusal (CreateBody.title fields)
  | PostMistyped => unprocessable
  end.

Definition refusal_patch (body : PatchBody) : Response :=
  match body with
  | PatchFields fields => refusal (UpdateBody.title fields)
  | PatchMistyped => unprocessable
  end.

(** *** Routing

    Every handler that takes an identifier declares it [task_id: UUID]; the
    conversion of the path segment to a [UUID] is the framework's, it is not
    code of this repository. The application is therefore given over any
    converter [uuid_of_path], [None] being its refusal of a malformed
    segment. Path and body are validated before the handler is entered. *)

Section Application.
Variable uuid_of_path : str -> option UUID.

Definition app (now : datetime) (uuid4 : UUID)
    (request : Request) (store : TaskStore) : Response * TaskStore :=
  match request with
  | GET_health =>
      ({| status := HTTP_200_OK; content := HealthJSON health_check |},
       store)
  | GET_tasks =>
      ({| status := HTTP_200_OK;
          content := TaskListJSON (list_tasks store) |}, store)
  | POST_tasks body =>
      match validate_post body with
      | None => (refusal_post body, store)
      | Some data =>
          let (task, store') := create_task now uuid4 store data in
          ({| status := HTTP_201_CREATED; content := TaskJSON task |},
           store')
      end
  | GET_task path_id =>
      match uuid_of_path path_id with
      | None => (unprocessable, store)
      | Some task_id =>
          match get_task store task_id with
          | inl e => (of_exception e, store)
          | inr task =>
              ({| status := HTTP_200_OK; content := TaskJSON task |}, store)
          end
      end
  | PATCH_task path_id body =>
      match uuid_of_path path_id, validate_patch body with
      | Some task_id, Some data =>
          match update_task now store task_id data with
          | (inl e, store') => (of_exception e, store')
          | (inr task, store') =>
              ({| status := HTTP_200_OK; content := TaskJSON task |},
               store')
          end
      | _, _ => (refusal_patch body, store)
      end
  | DELETE_task path_id =>
      match uuid_of_path path_id with
      | None => (unprocessable, store)
      | Some task_id =>
          match delete_task store task_id with
          | (inl e, store') => (of_exception e, store')
          | (inr _, store') =>
              ({| status := HTTP_204_NO_CONTENT; content := NoBody |},
               store')
          end
      end
  end.

(** A request together with what the environment answers while it is
    served. *)
Record Event := mkEvent {
  event_now : datetime;
  event_uuid4 : UUID;
  event_request : Request
}.

Definition serve_one (e : Event) (store : TaskStore)
    : Response * TaskStore :=
  app (event_now e) (event_uuid4 e) (event_request e) store.

(** The responses to a sequence of requests, and the store after it. *)
Fixpoint serve (events : list Event) (store : TaskStore)
    : list Response * TaskStore :=
  match events with
  | [] => ([], store)
  | e :: rest =>
      let (r, store') := serve_one e store in
      let (rs, store'') := serve rest store' in
      (r :: rs, store'')
  end.
End Application.

(** *** A concrete converter

    The textual shapes of an identifier: 32 hexadecimal digits, the same in
    groups of 8-4-4-4-12 separated by hyphens, that in braces, or that after
    [urn:uuid:]. It serves to run the application on concrete requests; the
    statements about the application hold for every converter. *)

Definition hex_value (c : codepoint) : option N :=
  if (N.leb 48 c && N.leb c 57)%bool then Some (c - 48)%N
  else if (N.leb 97 c && N.leb c 102)%bool then Some (c - 87)%N
  else if (N.leb 65 c && N.leb c 70)%bool then Some (c - 55)%N
  else None.

Fixpoint hex_number (acc : N) (s : str) : option N :=
  match s with
  | [] => Some acc
  | c :: rest =>
      match hex_value c with
      | Some d => hex_number (16 * acc + d)%N rest
      | None => None
      end
  end.

Definition hyphen : codepoint := 45%N.

(** The digits of [s] when [s] is five groups of the given sizes separated
    by hyphens. *)
Fixpoint strip_groups (sizes : list nat) (s : str) : option str :=
  match sizes with
  | [] => match s with [] => Some [] | _ => None end
  | n :: more =>
      if Nat.ltb (List.length s) n then None
      else
        let group := firstn n s in
        match more, skipn n s with
        | [], [] => Some group
        | _ :: _, c :: rest =>
            if N.eqb c hyphen then
              match strip_groups more rest with
              | Some digits => Some (group ++ digits)
              | None => None
              end
            else None
        | _, _ => None
        end
  end.

Definition parse_simple (s : str) : option UUID :=
  if Nat.eqb (List.length s) 32 then hex_number 0 s else None.

Definition parse_hyphenated (s : str) : option UUID :=
  match strip_groups [8; 4; 4; 4; 12]%nat s with
  | Some digits => hex_number 0 digits
  | None => None
  end.

Definition parse_uuid (s : str) : option UUID :=
  let n := List.length s in
  if Nat.eqb n 32 then parse_simple s
  else if Nat.eqb n 36 then parse_hyphenated s
  else if Nat.eqb n 38 then
    match s with
    | 123%N :: rest =>
        match rev rest with
        | 125%N :: inner => parse_hyphenated (rev inner)
        | _ => None
        end
    | _ => None
    end
  else if Nat.eqb n 45 then
    if str_eqb (firstn 9 s) (str_of "urn:uuid:")
    then parse_hyphenated (skipn 9 s) else None
  else None.

(** ** Predicates of the specification *)

(** A title as the data model wants it: text of 1 to 200 code points. *)
Definition valid_title (t : option str) : bool :=
  match t with
  | Some s => length_ok s
  | None => false
  end.

Definition titles_valid (self : TaskStore) : Prop :=
  forall task, In task (values (_tasks self)) -> valid_title (title task) = true.

Definition titles_validb (self : TaskStore) : bool :=
  forallb (fun task => valid_title (title task)) (values (_tasks self)).

Definition timestamps_ordered (self : TaskStore) : Prop :=
  forall task, In task (values (_tasks self)) ->
    (created_at task <= updated_at task)%Z.

(** The store invariant: one record per identifier, filed under its own
    identifier. *)
Definition wf (self : TaskStore) : Prop :=
  wf_dict (_tasks self).

(** Newest first. *)
Definition newest_first (l : list Task) : Prop :=
  StronglySorted (fun a b => (created_at b <= created_at a)%Z) l.

(** The outcomes by which a call reports that it found no record. *)
Definition reports_absent (o : Outcome) : bool :=
  match o with
  | Got None | Updated None | Deleted false => true
  | _ => false
  end.

(** Every stored task was created no later than it was last updated, and
    no later than the instant [bound]. *)
Definition created_before (bound : datetime) (self : TaskStore) : Prop :=
  forall task, In task (values (_tasks self)) ->
    (created_at task <= updated_at task)%Z /\ (created_at task <= bound)%Z.

(** The clock value after a call, [bound] being the one before it. *)
Definition clock_after (bound : datetime) (c : Call) : datetime :=
  match clock_of c with
  | [] => bound
  | now :: _ => now
  end.

(** The clock does not go back between a task's creation and an update of
    it: a call of [update] that applies fields to a stored task reads a
    clock value that is not before the task's [created_at], which is the
    clock value read at its creation. Nothing is asked of the other
    calls, nor of the clock values of different tasks among themselves. *)
Definition respects_creation (c : Call) (self : TaskStore) : bool :=
  match c with
  | Update now task_id data =>
      match get self task_id with
      | Some task =>
          negb (dict_nonempty (model_dump_exclude_unset data))
          || Z.leb (created_at task) now
      | None => true
      end
  | _ => true
  end.

(** The same along a sequence of calls, each taken at the store it meets. *)
Fixpoint clock_respects_creation (calls : list Call) (self : TaskStore)
    : bool :=
  match calls with
  | [] => true
  | c :: rest =>
      respects_creation c self
      && clock_respects_creation rest (snd (call c self))
  end.

(** Every record is filed under its own identifier. *)
Definition filed_by_id (self : TaskStore) : Prop :=
  forall k t, In (k, t) (_tasks self) -> id t = k.

(** The call of the store that serving a request leads to, if any: the one
    the handler makes once path and body have validated. *)
Definition store_call (uuid_of_path : str -> option UUID)
    (now : datetime) (uuid4 : UUID) (request : Request) : option Call :=
  match request with
  | GET_health => None
  | GET_tasks => Some ListAll
  | POST_tasks body =>
      match validate_post body with
      | Some data => Some (Create now uuid4 data)
      | None => None
      end
  | GET_task path_id =>
      match uuid_of_path path_id with
      | Some task_id => Some (Get task_id)
      | None => None
      end
  | PATCH_task path_id body =>
      match uuid_of_path path_id, validate_patch body with
      | Some task_id, Some data => Some (Update now task_id data)
      | _, _ => None
      end
  | DELETE_task path_id =>
      match uuid_of_path path_id with
      | Some task_id => Some (Delete task_id)
      | None => None
      end
  end.

Definition store_calls (uuid_of_path : str -> option UUID)
    (events : list Event) : list Call :=
  flat_map (fun e =>
              match store_call uuid_of_path (event_now e) (event_uuid4 e)
                      (event_request e) with
              | Some c => [c]
              | None => []
              end) events.

(** A PATCH whose body has [title] explicitly [null]. *)
Definition patches_null_title (request : Request) : bool :=
  match request with
  | PATCH_task _ (PatchFields body) =>
      match UpdateBody.title body with
      | Null => true
      | _ => false
      end
  | _ => false
  end.

(** What a body field does to a stored field: nothing when missing,
    otherwise it replaces it, [null] by [None]. *)
Definition patched {A} (f : body_field A) (old : option A) : option A :=
  match f with
  | Missing => old
  | Null => None
  | Value a => Some a
  end.

(** ** Sample data *)

Definition sample_id : UUID := 7%N.

Definition sample_path : segment :=
  mkSegment (str_of "00000000-0000-0000-0000-000000000007") eq_refl.

Definition sample_task : Task :=
  {| id := sample_id;
     title := Some (str_of "Original");
     completed := Some false;
     created_at := 10%Z;
     updated_at := 10%Z |}.

Definition sample_store : TaskStore := {| _tasks := [(sample_id, sample_task)] |}.

(** The bodies [{}], [{"completed": true}] and [{"title": null}] of a
    PATCH request, and what they validate to. *)
Definition no_fields : TaskUpdate.t :=
  {| TaskUpdate.title := None; TaskUpdate.completed := None;
     TaskUpdate.title_set := false; TaskUpdate.completed_set := false |}.

Definition only_completed : TaskUpdate.t :=
  {| TaskUpdate.title := None; TaskUpdate.completed := Some true;
     TaskUpdate.title_set := false; TaskUpdate.completed_set := true |}.

Definition null_title_body : UpdateBody.t :=
  {| UpdateBody.title := Null; UpdateBody.completed := Missing |}.

Definition unknown_path : segment :=
  mkSegment (str_of "00000000-0000-0000-0000-000000000009") eq_refl.

Definition malformed_path : segment := mkSegment (str_of "not-a-uuid") eq_refl.

(** A session of store calls under a clock that moves forward. *)
Definition sample_calls : list Call :=
  [ Create 1 7 (TaskCreate.mk (str_of "Complete me"));
    Update 2 7 only_completed;
    Get 7;
    Delete 9;
    Create 2 8 (TaskCreate.mk (str_of "Delete me"));
    Delete 8;
    Update 5 7 no_fields;
    ListAll ].

(** Two tasks whose clock values interleave: the second is created, and
    updated, at instants before the creation of the first. *)
Definition interleaved_calls : list Call :=
  [ Create 10 1 (TaskCreate.mk (str_of "first"));
    Update 12 1 only_completed;
    Create 5 2 (TaskCreate.mk (str_of "second"));
    Update 7 2 only_completed ].

(** A session of two requests: [POST /api/tasks {"title": "a"}], for which
    [uuid4()] draws 7, then [PATCH /api/tasks/<7> {"title": null}]. *)
Definition null_title_session : list Event :=
  [ mkEvent 1 7 (POST_tasks (CreateBody.mk (Value (str_of "a"))));
    mkEvent 2 0 (PATCH_task sample_path null_title_body) ].

(** A session without an explicit [null]: a creation, then
    [PATCH /api/tasks/<7> {"completed": true}]. *)
Definition plain_session : list Event :=
  [ mkEvent 1 7 (POST_tasks (CreateBody.mk (Value (str_of "a"))));
    mkEvent 2 0 (PATCH_task sample_path
                   (UpdateBody.mk Missing (Value true))) ].

(** The requests of a task's life: create it, fetch it, rename it, delete
    it, fetch it again. Each comes with the clock value and the draw of
    [uuid4()] of its moment; only the first uses the draw. *)
Definition lifecycle (path : segment) (uuid4 : UUID) (t t2 : str)
    (n1 n2 n3 n4 n5 : datetime) (u2 u3 u4 u5 : UUID) : list Event :=
  [ mkEvent n1 uuid4 (POST_tasks (CreateBody.mk (Value t)));
    mkEvent n2 u2 (GET_task path);
    mkEvent n3 u3 (PATCH_task path (UpdateBody.mk (Value t2) Missing));
    mkEvent n4 u4 (DELETE_task path);
    mkEvent n5 u5 (GET_task path) ].

(** * Properties *)

(** ** The dictionary *)

Section DictFacts.
Implicit Types (k : UUID) (v : Task) (d : dict).

Lemma dict_get_set_same k v d : dict_get k (dict_set k v d) = Some v.
Proof.
  induction d as [|[k' v'] d IH]; simpl.
  - now rewrite N.eqb_refl.
  - destruct (N.eqb k k') eqn:E; simpl.
    + now rewrite N.eqb_refl.
    + now rewrite E.
Qed.

Lemma dict_get_set_other k k' v d :
  k' <> k -> dict_get k' (dict_set k v d) = dict_get k' d.
Proof.
  intros Hne. induction d as [|[k0 v0] d IH]; simpl.
  - apply N.eqb_neq in Hne. now rewrite Hne.
  - destruct (N.eqb k k0) eqn:E; simpl.
    + apply N.eqb_eq in E. subst k0.
      apply N.eqb_neq in Hne. now rewrite Hne.
    + now rewrite IH.
Qed.

Lemma dict_get_None_keys k d : dict_get k d = None <-> ~ In k (keys d).
Proof.
  induction d as [|[k' v'] d IH]; simpl.
  - tauto.
  - destruct (N.eqb k k') eqn:E.
    + apply N.eqb_eq in E. split; [discriminate | intros H; exfalso; auto].
    + apply N.eqb_neq in E. rewrite IH. split.
      * intros H [H1 | H1]; [congruence | auto].
      * intros H H1. apply H. now right.
Qed.

Lemma dict_get_Some_In k v d : dict_get k d = Some v -> In (k, v) d.
Proof.
  induction d as [|[k' v'] d IH]; simpl; [discriminate|].
  destruct (N.eqb k k') eqn:E.
  - apply N.eqb_eq in E. intros [= ->]. left. now subst.
  - intros H. right. auto.
Qed.

Lemma dict_get_Some_value k v d : dict_get k d = Some v -> In v (values d).
Proof.
  intros H. apply dict_get_Some_In in H.
  unfold values. change v with (snd (k, v)). now apply in_map.
Qed.

(** Assigning to a key that is there keeps the keys and their order. *)
Lemma keys_set_present k v d :
  dict_get k d <> None -> keys (dict_set k v d) = keys d.
Proof.
  induction d as [|[k' v'] d IH]; simpl; [congruence|].
  destruct (N.eqb k k') eqn:E; simpl.
  - apply N.eqb_eq in E. now subst.
  - intros H. now rewrite IH.
Qed.

(** Assigning to a new key appends it. *)
Lemma dict_set_absent k v d :
  dict_get k d = None -> dict_set k v d = d ++ [(k, v)].
Proof.
  induction d as [|[k' v'] d IH]; simpl; [reflexivity|].
  destruct (N.eqb k k') eqn:E; [discriminate|].
  intros H. now rewrite IH.
Qed.

Lemma wf_dict_set k v d : wf_dict d -> wf_dict (dict_set k v d).
Proof.
  unfold wf_dict. intros Hd.
  destruct (dict_get k d) eqn:G.
  - rewrite keys_set_present; [assumption | congruence].
  - rewrite dict_set_absent by assumption.
    unfold keys. rewrite map_app. simpl.
    apply NoDup_app; [assumption | repeat constructor; simpl; tauto |].
    intros x Hx [<- | []]. now apply dict_get_None_keys in G.
Qed.

Lemma values_set k v d t :
  In t (values (dict_set k v d)) -> t = v \/ In t (values d).
Proof.
  induction d as [|[k' v'] d IH]; simpl.
  - intros [H | []]. now left.
  - destruct (N.eqb k k'); simpl.
    + intros [H | H]; [now left | right; now right].
    + intros [H | H]; [right; now left |].
      destruct (IH H); [now left | right; now right].
Qed.

Lemma keys_del_incl k k' d : In k' (keys (dict_del k d)) -> In k' (keys d).
Proof.
  induction d as [|[k0 v0] d IH]; simpl; [tauto|].
  destruct (N.eqb k k0); simpl; intuition.
Qed.

Lemma values_del k d t : In t (values (dict_del k d)) -> In t (values d).
Proof.
  induction d as [|[k0 v0] d IH]; simpl; [tauto|].
  destruct (N.eqb k k0); simpl; intuition.
Qed.

Lemma wf_dict_del k d : wf_dict d -> wf_dict (dict_del k d).
Proof.
  unfold wf_dict.
  induction d as [|[k0 v0] d IH]; simpl; [trivial|].
  intros H. inversion H as [|? ? Hnotin Hnd]; subst.
  destruct (N.eqb k k0); simpl; [assumption|].
  constructor; [|auto].
  intros Hin. apply Hnotin. eapply keys_del_incl; eauto.
Qed.

Lemma dict_get_del_same k d : wf_dict d -> dict_get k (dict_del k d) = None.
Proof.
  unfold wf_dict.
  induction d as [|[k0 v0] d IH]; simpl; [trivial|].
  intros H. inversion H as [|? ? Hnotin Hnd]; subst.
  destruct (N.eqb k k0) eqn:E; simpl.
  - apply N.eqb_eq in E. subst. now apply dict_get_None_keys.
  - rewrite E. auto.
Qed.

Lemma dict_get_del_other k k' d :
  k' <> k -> dict_get k' (dict_del k d) = dict_get k' d.
Proof.
  intros Hne. induction d as [|[k0 v0] d IH]; simpl; [trivial|].
  destruct (N.eqb k k0) eqn:E; simpl.
  - apply N.eqb_eq in E. subst.
    apply N.eqb_neq in Hne. now rewrite Hne.
  - now rewrite IH.
Qed.

Lemma dict_del_absent k d : dict_get k d = None -> dict_del k d = d.
Proof.
  induction d as [|[k0 v0] d IH]; simpl; [trivial|].
  destruct (N.eqb k k0); [discriminate|].
  intros H. now rewrite IH.
Qed.
End DictFacts.

(** ** Reachable stores *)

(** Every call keeps one record per identifier, so every store reached
    from a new one has it. *)
Lemma call_wf c self : wf self -> wf (snd (call c self)).
Proof.
  unfold wf. intros H.
  destruct c as [| task_id | now uuid4 data | now task_id data | task_id |];
    simpl; try assumption.
  - now apply wf_dict_set.
  - unfold update. destruct (dict_get task_id (_tasks self)); [|assumption].
    destruct (dict_nonempty _); simpl; [now apply wf_dict_set | assumption].
  - unfold delete. destruct (dict_contains _ _); simpl;
      [now apply wf_dict_del | assumption].
  - constructor.
Qed.

Lemma run_wf calls : forall self, wf self -> wf (run calls self).
Proof.
  induction calls as [|c calls IH]; intros self H; simpl; [assumption|].
  apply IH. now apply call_wf.
Qed.

Lemma init_wf : wf init.
Proof. constructor. Qed.

(** ** [TaskStore.update] *)

Lemma dump_no_fields data :
  TaskUpdate.title_set data = false ->
  TaskUpdate.completed_set data = false ->
  dict_nonempty (model_dump_exclude_unset data) = false.
Proof.
  intros Ht Hc. unfold dict_nonempty, model_dump_exclude_unset. simpl.
  now rewrite Ht, Hc.
Qed.

Lemma dump_some_field data :
  TaskUpdate.title_set data || TaskUpdate.completed_set data = true ->
  dict_nonempty (model_dump_exclude_unset data) = true.
Proof.
  unfold dict_nonempty, model_dump_exclude_unset. simpl.
  destruct (TaskUpdate.title_set data), (TaskUpdate.completed_set data);
    simpl; congruence.
Qed.

(** The record an applied update builds from the prior version. *)
Lemma model_copy_merge now task data :
  model_copy task (set_updated_at now (model_dump_exclude_unset data)) =
  {| id := id task;
     title := if TaskUpdate.title_set data
              then TaskUpdate.title data else title task;
     completed := if TaskUpdate.completed_set data
                  then TaskUpdate.completed data else completed task;
     created_at := created_at task;
     updated_at := now |}.
Proof.
  unfold model_copy, set_updated_at, model_dump_exclude_unset. simpl.
  now destruct (TaskUpdate.title_set data), (TaskUpdate.completed_set data).
Qed.

(** C1. When the partial of an update carries no field, [update] on a
    stored task returns the stored record itself, [updated_at] included,
    and the store is the one it was. *)
Theorem update_no_fields_is_noop now self task_id data task :
  get self task_id = Some task ->
  TaskUpdate.title_set data = false ->
  TaskUpdate.completed_set data = false ->
  update now self task_id data = (Some task, self).
Proof.
  intros Hget Ht Hc. unfold update. unfold get in Hget. rewrite Hget.
  now rewrite dump_no_fields.
Qed.

(** C2. When the partial supplies at least one field, [update] on a stored
    task builds the record in which the supplied fields have the supplied
    values, every other field is that of the prior version and [updated_at]
    is the current time; that record is returned and replaces the stored
    one, in place, while the records of the other identifiers stay. With
    only [completed] supplied, [title] and [created_at] are the old ones. *)
Theorem update_overwrites_supplied_fields now self task_id data task :
  get self task_id = Some task ->
  TaskUpdate.title_set data || TaskUpdate.completed_set data = true ->
  let new := {| id := id task;
                title := if TaskUpdate.title_set data
                         then TaskUpdate.title data else title task;
                completed := if TaskUpdate.completed_set data
                             then TaskUpdate.completed data
                             else completed task;
                created_at := created_at task;
                updated_at := now |} in
  let self' := snd (update now self task_id data) in
  fst (update now self task_id data) = Some new
  /\ get self' task_id = Some new
  /\ (forall other, other <> task_id -> get self' other = get self other)
  /\ keys (_tasks self') = keys (_tasks self)
  /\ (TaskUpdate.title_set data = false ->
      TaskUpdate.completed data = Some true ->
      title new = title task /\ created_at new = created_at task
      /\ completed new = Some true /\ updated_at new = now).
Proof.
  intros Hget Hsome new self'.
  assert (E : update now self task_id data =
              (Some new, {| _tasks := dict_set task_id new (_tasks self) |})).
  { unfold update. unfold get in Hget. rewrite Hget.
    rewrite dump_some_field by assumption.
    now rewrite model_copy_merge. }
  subst self'. rewrite E. simpl. unfold get. simpl.
  split; [reflexivity|].
  split; [apply dict_get_set_same|].
  split; [intros other Hne; now apply dict_get_set_other|].
  split.
  - apply keys_set_present. unfold get in Hget. congruence.
  - intros Ht Hc. subst new. simpl. rewrite Ht in *. simpl in Hsome.
    rewrite Hsome. auto.
Qed.

(** C10. A body whose [title] is an explicit [null] passes the validation
    of [TaskUpdate] with [title] in the set fields; applied to a stored
    task, the update stores a record whose title is [None] and whose
    [updated_at] is the current time. *)
Theorem update_explicit_null_title now self task_id task body :
  get self task_id = Some task ->
  UpdateBody.title body = Null ->
  exists data new,
    validate_TaskUpdate body = Some data
    /\ TaskUpdate.title_set data = true
    /\ TaskUpdate.title data = None
    /\ update now self task_id data =
       (Some new, {| _tasks := dict_set task_id new (_tasks self) |})
    /\ get (snd (update now self task_id data)) task_id = Some new
    /\ title new = None
    /\ updated_at new = now.
Proof.
  intros Hget Hnull.
  unfold validate_TaskUpdate. rewrite Hnull. simpl.
  eexists. eexists. split; [reflexivity|]. simpl.
  split; [reflexivity|]. split; [reflexivity|].
  unfold update. unfold get in Hget. rewrite Hget.
  rewrite dump_some_field by reflexivity.
  rewrite model_copy_merge. simpl.
  split; [reflexivity|].
  unfold get. simpl. rewrite dict_get_set_same. auto.
Qed.

(** ** [TaskStore.delete] *)

Lemma delete_unknown self task_id :
  get self task_id = None -> delete self task_id = (false, self).
Proof.
  unfold get, delete, dict_contains. now intros ->.
Qed.

Lemma delete_known self task_id task :
  get self task_id = Some task ->
  delete self task_id = (true, {| _tasks := dict_del task_id (_tasks self) |}).
Proof.
  unfold get, delete, dict_contains. now intros ->.
Qed.

(** C7. [delete] answers whether the identifier had a record, and after it
    the identifier has none while every other identifier keeps its record;
    after a delete that answered [True], [get] finds nothing and a second
    delete answers [False] and changes nothing. [delete] is a total
    function: it has an answer on every store and identifier. *)
Theorem delete_removes_and_reports self task_id :
  wf self ->
  let existed := fst (delete self task_id) in
  let self' := snd (delete self task_id) in
  existed = dict_contains task_id (_tasks self)
  /\ get self' task_id = None
  /\ (forall other, other <> task_id -> get self' other = get self other)
  /\ wf self'
  /\ (existed = true ->
      get self' task_id = None /\ delete self' task_id = (false, self')).
Proof.
  intros Hwf existed self'. subst existed self'.
  assert (Hnone : get (snd (delete self task_id)) task_id = None).
  { destruct (get self task_id) as [task|] eqn:G.
    - rewrite (delete_known _ _ G). simpl. unfold get. simpl.
      now apply dict_get_del_same.
    - now rewrite (delete_unknown _ _ G). }
  assert (Hc : dict_contains task_id (_tasks self)
               = match get self task_id with Some _ => true | None => false end)
    by reflexivity.
  destruct (get self task_id) as [task|] eqn:G.
  - rewrite (delete_known _ _ G) in *. simpl in *.
    split; [now rewrite Hc|].
    split; [assumption|].
    split; [intros other Hne; unfold get; simpl; now apply dict_get_del_other|].
    split; [unfold wf; simpl; now apply wf_dict_del|].
    intros _. split; [assumption | now apply delete_unknown].
  - rewrite (delete_unknown _ _ G) in *. simpl in *.
    split; [now rewrite Hc|].
    split; [assumption|].
    split; [reflexivity|].
    split; [assumption | discriminate].
Qed.

Lemma update_no_fields_is_noop_witness :
  get sample_store sample_id = Some sample_task
  /\ update 20 sample_store sample_id no_fields
     = (Some sample_task, sample_store).
Proof.
  split; [reflexivity|].
  apply (@update_no_fields_is_noop 20%Z sample_store sample_id no_fields
           sample_task); reflexivity.
Defined.

Lemma update_overwrites_supplied_fields_witness :
  fst (update 20 sample_store sample_id only_completed)
  = Some {| id := sample_id;
            title := Some (str_of "Original");
            completed := Some true;
            created_at := 10;
            updated_at := 20 |}.
Proof.
  exact (proj1 (@update_overwrites_supplied_fields 20%Z sample_store
                  sample_id only_completed sample_task eq_refl eq_refl)).
Defined.

Lemma update_explicit_null_title_witness :
  exists data new,
    validate_TaskUpdate null_title_body = Some data
    /\ TaskUpdate.title_set data = true
    /\ TaskUpdate.title data = None
    /\ update 20 sample_store sample_id data =
       (Some new, {| _tasks := dict_set sample_id new (_tasks sample_store) |})
    /\ get (snd (update 20 sample_store sample_id data)) sample_id = Some new
    /\ title new = None
    /\ updated_at new = 20%Z.
Proof.
  apply (@update_explicit_null_title 20%Z sample_store sample_id sample_task
           null_title_body); reflexivity.
Defined.

Lemma sample_store_wf : wf sample_store.
Proof.
  unfold wf, wf_dict. simpl. repeat constructor. simpl. tauto.
Qed.

Lemma delete_removes_and_reports_witness :
  fst (delete sample_store sample_id) = true
  /\ get (snd (delete sample_store sample_id)) sample_id = None.
Proof.
  pose proof (@delete_removes_and_reports sample_store sample_id
                sample_store_wf) as H.
  simpl in H. destruct H as (H1 & H2 & _). split; [exact H1 | exact H2].
Defined.

(** ** Failure leaves the store alone *)

Lemma update_unknown now self task_id data :
  get self task_id = None -> update now self task_id data = (None, self).
Proof.
  unfold get, update. now intros ->.
Qed.

Lemma update_None_unchanged now self task_id data :
  fst (update now self task_id data) = None ->
  snd (update now self task_id data) = self.
Proof.
  unfold update.
  destruct (dict_get task_id (_tasks self)); [|reflexivity].
  destruct (dict_nonempty _); simpl; [discriminate | reflexivity].
Qed.

Lemma delete_False_unchanged self task_id :
  fst (delete self task_id) = false -> snd (delete self task_id) = self.
Proof.
  unfold delete. destruct (dict_contains _ _); simpl;
    [discriminate | reflexivity].
Qed.

(** C9. No call of the store fails half-way. [get] on any identifier,
    [update] on an unknown one and [delete] on an unknown one return their
    absent signal with the store exactly as it was; and whenever any call
    reports absence, the store after it is the store before it. *)
Theorem absent_calls_leave_store now self any_id unknown data :
  get self unknown = None ->
  call (Get any_id) self = (Got (get self any_id), self)
  /\ call (Update now unknown data) self = (Updated None, self)
  /\ call (Delete unknown) self = (Deleted false, self)
  /\ (forall c, reports_absent (fst (call c self)) = true ->
                snd (call c self) = self).
Proof.
  intros Hunknown. simpl.
  rewrite (update_unknown now _ _ data Hunknown).
  rewrite (delete_unknown _ _ Hunknown).
  repeat (split; [reflexivity|]).
  intros [| id0 | t u d | t id0 d | id0 |]; simpl; try discriminate;
    try reflexivity.
  - pose proof (update_None_unchanged t self id0 d) as H.
    destruct (update t self id0 d) as [[task|] s']; simpl in *;
      [discriminate | auto].
  - pose proof (delete_False_unchanged self id0) as H.
    destruct (delete self id0) as [[|] s']; simpl in *;
      [discriminate | auto].
Qed.

Lemma absent_calls_leave_store_witness :
  get sample_store 99%N = None
  /\ call (Update 20 99%N only_completed) sample_store
     = (Updated None, sample_store)
  /\ call (Delete 99%N) sample_store = (Deleted false, sample_store).
Proof.
  split; [reflexivity|].
  pose proof (@absent_calls_leave_store 20%Z sample_store sample_id 99%N
                only_completed eq_refl) as (_ & H2 & H3 & _).
  split; [exact H2 | exact H3].
Defined.

(** ** [sorted(..., reverse=True)] and [list_all] *)

Section SortedFacts.
Variable A : Type.
Variable key : A -> Z.

Let desc (a b : A) : Prop := (key b <= key a)%Z.

Lemma insert_desc_perm x l : Permutation (insert_desc key x l) (x :: l).
Proof.
  induction l as [|y l IH]; simpl; [reflexivity|].
  destruct (Z.leb (key y) (key x)); [reflexivity|].
  rewrite IH. apply perm_swap.
Qed.

Lemma sorted_reverse_perm l : Permutation (sorted_reverse key l) l.
Proof.
  induction l as [|x l IH]; simpl; [reflexivity|].
  rewrite insert_desc_perm. now constructor.
Qed.

Lemma insert_desc_sorted x l :
  StronglySorted desc l -> StronglySorted desc (insert_desc key x l).
Proof.
  induction 1 as [|y l Hl IH Hy]; simpl.
  - repeat constructor.
  - destruct (Z.leb (key y) (key x)) eqn:E.
    + apply Z.leb_le in E. constructor; [now constructor|].
      constructor; [exact E|].
      eapply Forall_impl; [|exact Hy].
      unfold desc. intros; lia.
    + apply Z.leb_gt in E. constructor; [exact IH|].
      eapply Permutation_Forall; [symmetry; apply insert_desc_perm|].
      constructor; [unfold desc; lia | exact Hy].
Qed.

Lemma sorted_reverse_sorted l : StronglySorted desc (sorted_reverse key l).
Proof.
  induction l as [|x l IH]; simpl; [constructor|].
  now apply insert_desc_sorted.
Qed.

(** Stability: the elements of any one key come out in the order they
    went in. *)
Lemma insert_desc_stable k x l :
  filter (fun a => Z.eqb (key a) k) (insert_desc key x l)
  = filter (fun a => Z.eqb (key a) k) (x :: l).
Proof.
  induction l as [|y l IH]; [reflexivity|].
  simpl insert_desc.
  destruct (Z.leb (key y) (key x)) eqn:E; [reflexivity|].
  apply Z.leb_gt in E.
  change (filter (fun a => Z.eqb (key a) k) (y :: insert_desc key x l))
    with (if Z.eqb (key y) k
          then y :: filter (fun a => Z.eqb (key a) k) (insert_desc key x l)
          else filter (fun a => Z.eqb (key a) k) (insert_desc key x l)).
  rewrite IH. simpl.
  destruct (Z.eqb (key y) k) eqn:Ey, (Z.eqb (key x) k) eqn:Ex;
    try reflexivity.
  apply Z.eqb_eq in Ey, Ex. lia.
Qed.

Lemma sorted_reverse_stable k l :
  filter (fun a => Z.eqb (key a) k) (sorted_reverse key l)
  = filter (fun a => Z.eqb (key a) k) l.
Proof.
  induction l as [|x l IH]; [reflexivity|].
  simpl sorted_reverse. rewrite insert_desc_stable.
  simpl. now rewrite IH.
Qed.
End SortedFacts.

(** C6. [list_all] returns the stored tasks, each once (a permutation of
    the values of the dictionary), newest [created_at] first, tasks of
    equal [created_at] in their order of insertion; on a store without
    tasks it returns the empty list; it is a total function. After three
    creations A, B, C on an empty store, with distinct identifiers and
    strictly increasing clock readings, it returns [C, B, A]. *)
Theorem list_all_newest_first self tA tB tC a b c dA dB dC :
  Permutation (list_all self) (values (_tasks self))
  /\ newest_first (list_all self)
  /\ (forall k, filter (fun t => Z.eqb (created_at t) k) (list_all self)
                = filter (fun t => Z.eqb (created_at t) k)
                         (values (_tasks self)))
  /\ (_tasks self = [] -> list_all self = [])
  /\ (a <> b -> a <> c -> b <> c ->
      (tA < tB)%Z -> (tB < tC)%Z ->
      let (A, s1) := create tA a init dA in
      let (B, s2) := create tB b s1 dB in
      let (C, s3) := create tC c s2 dC in
      list_all s3 = [C; B; A]).
Proof.
  split; [apply sorted_reverse_perm|].
  split; [apply sorted_reverse_sorted|].
  split; [intros k; apply sorted_reverse_stable|].
  split; [unfold list_all; now intros ->|].
  intros Hab Hac Hbc HAB HBC.
  unfold create, list_all, init. simpl.
  apply not_eq_sym in Hab, Hac, Hbc.
  apply N.eqb_neq in Hab, Hac, Hbc.
  rewrite Hab. simpl. rewrite Hac. simpl. rewrite Hbc. simpl.
  assert (E1 : Z.leb tC tB = false) by (apply Z.leb_gt; lia).
  assert (E2 : Z.leb tC tA = false) by (apply Z.leb_gt; lia).
  assert (E3 : Z.leb tB tA = false) by (apply Z.leb_gt; lia).
  rewrite E1. simpl. rewrite E2. simpl. now rewrite E3.
Qed.

Lemma list_all_newest_first_witness :
  list_all
    (snd (create 3 13 (snd (create 2 12 (snd (create 1 11 init
           (TaskCreate.mk (str_of "A"))))
           (TaskCreate.mk (str_of "B"))))
           (TaskCreate.mk (str_of "C"))))
  = [ mkTask 13 (Some (str_of "C")) (Some false) 3 3;
      mkTask 12 (Some (str_of "B")) (Some false) 2 2;
      mkTask 11 (Some (str_of "A")) (Some false) 1 1 ].
Proof.
  pose proof (@list_all_newest_first init 1%Z 2%Z 3%Z 11%N 12%N 13%N
                (TaskCreate.mk (str_of "A")) (TaskCreate.mk (str_of "B"))
                (TaskCreate.mk (str_of "C"))) as (_ & _ & _ & _ & H).
  apply H; [discriminate | discriminate | discriminate | reflexivity
           | reflexivity].
Defined.

(** ** [TaskStore.create] *)




(** ** Timestamps *)

Lemma created_before_weaken lo lo' self :
  (lo <= lo')%Z -> created_before lo self -> created_before lo' self.
Proof.
  intros Hle H task Hin. destruct (H task Hin). split; lia.
Qed.

(** One call keeps the timestamps in order when it reads a clock that has
    not gone back. *)
Lemma call_created_before lo c self :
  created_before lo self ->
  Forall (Z.le lo) (clock_of c) ->
  created_before (clock_after lo c) (snd (call c self)).
Proof.
  intros Hinv Hclock.
  destruct c as [| task_id | now uuid4 data | now task_id data | task_id |];
    unfold clock_after; simpl in *.
  - exact Hinv.
  - exact Hinv.
  - inversion Hclock as [|? ? Hle _]; subst.
    intros task Hin. simpl in Hin. apply values_set in Hin.
    destruct Hin as [-> | Hin]; simpl; [lia|].
    destruct (Hinv task Hin). lia.
  - inversion Hclock as [|? ? Hle _]; subst.
    unfold update.
    destruct (dict_get task_id (_tasks self)) as [old|] eqn:G; simpl.
    + destruct (dict_nonempty (model_dump_exclude_unset data)); simpl.
      * intros task Hin. simpl in Hin. apply values_set in Hin.
        destruct (Hinv old (dict_get_Some_value _ _ G)) as [_ Hold].
        destruct Hin as [-> | Hin]; simpl; [lia|].
        destruct (Hinv task Hin). lia.
      * now apply created_before_weaken with lo.
    + now apply created_before_weaken with lo.
  - unfold delete. destruct (dict_contains task_id (_tasks self)); simpl.
    + intros task Hin. simpl in Hin. apply values_del in Hin. auto.
    + exact Hinv.
  - intros task [].
Qed.

Lemma run_created_before calls :
  forall lo self,
    created_before lo self ->
    Forall (Z.le lo) (clock_reads calls) ->
    StronglySorted Z.le (clock_reads calls) ->
    timestamps_ordered (run calls self).
Proof.
  induction calls as [|c calls IH]; intros lo self Hinv Hlo Hsorted.
  - intros task Hin. now destruct (Hinv task Hin).
  - simpl. unfold clock_reads in *. simpl in Hlo, Hsorted.
    apply Forall_app in Hlo. destruct Hlo as [Hc Hrest].
    apply IH with (lo := clock_after lo c).
    + now apply call_created_before.
    + unfold clock_after. destruct (clock_of c) as [|now more] eqn:E;
        [exact Hrest|].
      simpl in Hsorted. apply StronglySorted_inv in Hsorted.
      destruct Hsorted as [_ Hall]. apply Forall_app in Hall. tauto.
    + clear -Hsorted. induction (clock_of c) as [|now more IHm];
        [exact Hsorted|].
      simpl in Hsorted. apply StronglySorted_inv in Hsorted. tauto.
Qed.

Lemma call_timestamps_ordered c self :
  timestamps_ordered self ->
  respects_creation c self = true ->
  timestamps_ordered (snd (call c self)).
Proof.
  intros Hinv Hclock.
  destruct c as [| task_id | now uuid4 data | now task_id data | task_id |];
    simpl in *.
  - exact Hinv.
  - exact Hinv.
  - intros task Hin. simpl in Hin. apply values_set in Hin.
    destruct Hin as [-> | Hin]; simpl; [lia | auto].
  - unfold update. unfold get in Hclock.
    destruct (dict_get task_id (_tasks self)) as [old|] eqn:G; simpl;
      [|exact Hinv].
    destruct (dict_nonempty (model_dump_exclude_unset data)); simpl in *;
      [|exact Hinv].
    apply Z.leb_le in Hclock.
    intros task Hin. simpl in Hin. apply values_set in Hin.
    destruct Hin as [-> | Hin]; simpl; [exact Hclock | auto].
  - unfold delete. destruct (dict_contains task_id (_tasks self)); simpl.
    + intros task Hin. simpl in Hin. apply values_del in Hin. auto.
    + exact Hinv.
  - intros task [].
Qed.

Lemma run_timestamps_ordered calls :
  forall self,
    timestamps_ordered self ->
    clock_respects_creation calls self = true ->
    timestamps_ordered (run calls self).
Proof.
  induction calls as [|c calls IH]; intros self Hinv Hclock; [exact Hinv|].
  simpl in *. apply andb_true_iff in Hclock. destruct Hclock as [Hc Hrest].
  apply IH; [|exact Hrest]. now apply call_timestamps_ordered.
Qed.

(** A clock that never goes back along the whole sequence respects, in
    particular, the creation of every task. *)
Lemma monotone_clock_respects_creation calls :
  forall lo self,
    created_before lo self ->
    Forall (Z.le lo) (clock_reads calls) ->
    StronglySorted Z.le (clock_reads calls) ->
    clock_respects_creation calls self = true.
Proof.
  induction calls as [|c calls IH]; intros lo self Hinv Hlo Hsorted;
    [reflexivity|].
  simpl. unfold clock_reads in *. simpl in Hlo, Hsorted.
  apply Forall_app in Hlo. destruct Hlo as [Hc Hrest].
  apply andb_true_iff. split.
  - destruct c as [| task_id | now uuid4 data | now task_id data | task_id |];
      simpl; try reflexivity.
    destruct (get self task_id) as [task|] eqn:G; [|reflexivity].
    apply orb_true_iff. right. apply Z.leb_le.
    inversion Hc as [|? ? Hle _]; subst.
    destruct (Hinv task) as [_ Hb]; [|lia].
    eapply dict_get_Some_value. exact G.
  - apply IH with (lo := clock_after lo c).
    + now apply call_created_before.
    + unfold clock_after. destruct (clock_of c) as [|now more] eqn:E;
        [exact Hrest|].
      simpl in Hsorted. apply StronglySorted_inv in Hsorted.
      destruct Hsorted as [_ Hall]. apply Forall_app in Hall. tauto.
    + clear -Hsorted. induction (clock_of c) as [|now more IHm];
        [exact Hsorted|].
      simpl in Hsorted. apply StronglySorted_inv in Hsorted. tauto.
Qed.

(** C8. After any sequence of calls of the store on a new store ([create],
    [update], [delete], [clear], and the reading calls), every stored task
    has [updated_at >= created_at], provided the clock has not gone back
    between the creation of a task and an update of it: each update that
    applies fields to a stored task reads a clock value not before that
    task's creation. The clock values of different tasks may interleave
    in any way. *)
Theorem updated_at_not_before_created_at calls :
  clock_respects_creation calls init = true ->
  timestamps_ordered (run calls init).
Proof.
  intros Hclock. apply run_timestamps_ordered; [|exact Hclock].
  intros task [].
Qed.

Lemma updated_at_not_before_created_at_witness :
  clock_respects_creation interleaved_calls init = true
  /\ timestamps_ordered (run interleaved_calls init).
Proof.
  split; [reflexivity|].
  exact (@updated_at_not_before_created_at interleaved_calls eq_refl).
Defined.

Remark clock_going_back_breaks_order :
  ~ timestamps_ordered (run [Create 10 7 (TaskCreate.mk (str_of "a"));
                             Update 5 7 only_completed] init).
Proof.
  intros H. specialize (H _ (or_introl eq_refl)). simpl in H. lia.
Qed.

(** ** Titles at the boundary *)

Lemma length_ok_spec s :
  length_ok s = true <-> (1 <= List.length s <= 200)%nat.
Proof.
  unfold length_ok. rewrite andb_true_iff, !Nat.leb_le. tauto.
Qed.

Lemma string_ok_spec s :
  string_ok s = true
  <-> is_text s = true /\ (1 <= List.length s <= 200)%nat.
Proof.
  unfold string_ok. rewrite andb_true_iff, length_ok_spec. tauto.
Qed.

(** A title of exactly 200 code points of text passes, on create and on
    update. *)
Lemma title_200_accepted s :
  is_text s = true ->
  List.length s = 200%nat ->
  validate_TaskCreate (CreateBody.mk (Value s)) = Some (TaskCreate.mk s)
  /\ forall c, validate_TaskUpdate (UpdateBody.mk (Value s) c) <> None.
Proof.
  intros Ht H.
  assert (Hok : string_ok s = true) by (apply string_ok_spec; split; [auto|lia]).
  unfold validate_TaskCreate, validate_TaskUpdate. simpl. rewrite Hok.
  split; [reflexivity | discriminate].
Qed.

(** A title of 201 code points of text, or the empty one, is answered 422
    and the store is not touched. *)
Lemma title_out_of_range_rejected conv now uuid4 store (path : segment) c s :
  is_text s = true ->
  List.length s = 201%nat \/ s = [] ->
  app conv now uuid4 (POST_tasks (CreateBody.mk (Value s))) store
  = (unprocessable, store)
  /\ app conv now uuid4 (PATCH_task path (UpdateBody.mk (Value s) c)) store
     = (unprocessable, store).
Proof.
  intros Ht H.
  assert (Hbad : string_ok s = false).
  { destruct (string_ok s) eqn:E; [|reflexivity].
    apply string_ok_spec in E. destruct H as [H | ->]; simpl in *; lia. }
  unfold app, validate_post, validate_patch, validate_TaskCreate,
    validate_TaskUpdate, refusal_post, refusal_patch, refusal. simpl.
  rewrite Hbad, Ht.
  split; [reflexivity|]. now destruct (conv path).
Qed.

(** What validation lets through is a title in range or no title. *)
Lemma validate_TaskUpdate_title body data :
  validate_TaskUpdate body = Some data ->
  UpdateBody.title body <> Null ->
  TaskUpdate.title_set data = true ->
  valid_title (TaskUpdate.title data) = true.
Proof.
  unfold validate_TaskUpdate.
  destruct (UpdateBody.title body) as [| |s] eqn:E; simpl.
  - intros [= <-]. discriminate.
  - congruence.
  - destruct (string_ok s) eqn:Hs; [|discriminate].
    apply string_ok_spec in Hs. destruct Hs as [_ Hs].
    apply length_ok_spec in Hs.
    intros [= <-]. simpl. auto.
Qed.

(** As long as no PATCH body carries an explicit [null] title, serving a
    request keeps every stored title in range. *)
Lemma app_keeps_titles_valid conv now uuid4 request store :
  (forall path (body : UpdateBody.t), request = PATCH_task path body ->
                     UpdateBody.title body <> Null) ->
  titles_valid store ->
  titles_valid (snd (app conv now uuid4 request store)).
Proof.
  intros Hnull Hinv.
  destruct request as [| | body | path | path body | path]; simpl; auto.
  - destruct body as [body|]; simpl; auto.
    unfold validate_TaskCreate.
    destruct (CreateBody.title body) as [| |s]; simpl; auto.
    destruct (string_ok s) eqn:Hs; simpl; auto.
    apply string_ok_spec in Hs. destruct Hs as [_ Hs].
    apply length_ok_spec in Hs.
    intros task Hin. simpl in Hin. apply values_set in Hin.
    destruct Hin as [-> | Hin]; [exact Hs | auto].
  - destruct (conv path) as [task_id|]; simpl; auto.
    destruct (get_task store task_id); auto.
  - destruct (conv path) as [task_id|]; simpl; auto.
    destruct body as [body|]; simpl; auto.
    destruct (validate_TaskUpdate body) as [data|] eqn:V; simpl; auto.
    unfold update_task, update.
    destruct (dict_get task_id (_tasks store)) as [old|] eqn:G; simpl; auto.
    destruct (dict_nonempty (model_dump_exclude_unset data)); simpl; auto.
    intros task Hin. simpl in Hin. apply values_set in Hin.
    destruct Hin as [-> | Hin]; [|auto].
    rewrite model_copy_merge. simpl.
    destruct (TaskUpdate.title_set data) eqn:Hset.
    + eapply validate_TaskUpdate_title; eauto.
    + apply Hinv. eapply dict_get_Some_value; eauto.
  - destruct (conv path) as [task_id|]; simpl; auto.
    unfold delete_task, delete.
    destruct (dict_contains task_id (_tasks store)); simpl; auto.
    intros task Hin. simpl in Hin. apply values_del in Hin. auto.
Qed.

(** C3. The title invariant does not survive an explicit [null]: after
    [POST /api/tasks {"title": "a"}] (201) and
    [PATCH /api/tasks/<id> {"title": null}] (200), both of which pass
    validation, the store holds a task whose title is [None], which is no
    text of 1 to 200 code points. *)
Theorem null_title_reaches_store :
  map status (fst (serve parse_uuid null_title_session init))
  = [HTTP_201_CREATED; HTTP_200_OK]
  /\ get (snd (serve parse_uuid null_title_session init)) 7
     = Some {| id := 7; title := None; completed := Some false;
               created_at := 1; updated_at := 2 |}
  /\ titles_validb (snd (serve parse_uuid null_title_session init)) = false
  /\ ~ titles_valid (snd (serve parse_uuid null_title_session init)).
Proof.
  split; [reflexivity|].
  split; [reflexivity|].
  split; [reflexivity|].
  intros H. specialize (H _ (or_introl eq_refl)). discriminate.
Qed.

(** ** Identifiers that name no task *)

(** C4, as the code has it. An identifier that converts to a [UUID] no
    stored task has is answered by get, update (with a body that validates)
    and delete with the same response: 404 and the detail
    ["Task not found"], the store untouched. *)
Theorem unknown_id_not_found (conv : str -> option UUID) now uuid4 store
    (path : segment) task_id (body : UpdateBody.t) data :
  conv path = Some task_id ->
  get store task_id = None ->
  validate_TaskUpdate body = Some data ->
  app conv now uuid4 (GET_task path) store = (not_found, store)
  /\ app conv now uuid4 (PATCH_task path body) store = (not_found, store)
  /\ app conv now uuid4 (DELETE_task path) store = (not_found, store)
  /\ status not_found = 404%Z
  /\ content not_found = DetailJSON (str_of "Task not found").
Proof.
  intros Hpath Hget Hbody.
  split; [unfold app, get_task; now rewrite Hpath, Hget|].
  split.
  { unfold app, update_task, validate_patch. rewrite Hpath, Hbody.
    now rewrite (update_unknown now _ _ data Hget). }
  split.
  { unfold app, delete_task. rewrite Hpath.
    now rewrite (delete_unknown _ _ Hget). }
  split; reflexivity.
Qed.

Lemma unknown_id_not_found_witness :
  parse_uuid unknown_path = Some 9%N
  /\ app parse_uuid 20 0 (GET_task unknown_path) sample_store
     = (not_found, sample_store).
Proof.
  split; [reflexivity|].
  exact (proj1 (@unknown_id_not_found parse_uuid 20%Z 0%N sample_store
                  unknown_path 9%N null_title_body _
                  eq_refl eq_refl eq_refl)).
Defined.

(** The malformed identifier [not-a-uuid] is not answered like an unknown
    one: get, update and delete answer 422, not the 404 response. *)
Lemma malformed_id_is_not_404 :
  parse_uuid malformed_path = None
  /\ fst (app parse_uuid 20 0 (GET_task malformed_path) sample_store)
     <> not_found
  /\ fst (app parse_uuid 20 0 (PATCH_task malformed_path null_title_body)
            sample_store) <> not_found
  /\ fst (app parse_uuid 20 0 (DELETE_task malformed_path) sample_store)
     <> not_found
  /\ status (fst (app parse_uuid 20 0 (GET_task malformed_path)
                    sample_store)) = 422%Z.
Proof.
  split; [reflexivity|].
  repeat split; try discriminate.
Qed.

(** * Further properties of the store *)

(** ** More on the dictionary *)

Lemma dict_get_In_wf k v d : wf_dict d -> In (k, v) d -> dict_get k d = Some v.
Proof.
  unfold wf_dict.
  induction d as [|[k0 v0] d IH]; simpl; [tauto|].
  intros Hnd [Heq | Hin].
  - injection Heq as -> ->. now rewrite N.eqb_refl.
  - inversion Hnd as [|? ? Hnotin Hnd']; subst.
    destruct (N.eqb k k0) eqn:E; [|auto].
    apply N.eqb_eq in E. subst k0. exfalso. apply Hnotin.
    unfold keys. change k with (fst (k, v)). now apply in_map.
Qed.

Lemma dict_set_In k v d k' v' :
  In (k', v') (dict_set k v d) -> (k', v') = (k, v) \/ In (k', v') d.
Proof.
  induction d as [|[k0 v0] d IH]; simpl.
  - intros [H | []]. now left.
  - destruct (N.eqb k k0); simpl.
    + intros [H | H]; [now left | right; now right].
    + intros [H | H]; [right; now left |].
      destruct (IH H); [now left | right; now right].
Qed.

Lemma dict_del_In k d k' v' : In (k', v') (dict_del k d) -> In (k', v') d.
Proof.
  induction d as [|[k0 v0] d IH]; simpl; [tauto|].
  destruct (N.eqb k k0); simpl; intuition.
Qed.

Lemma dict_del_appended k v d :
  dict_get k d = None -> dict_del k (d ++ [(k, v)]) = d.
Proof.
  induction d as [|[k0 v0] d IH]; simpl.
  - now rewrite N.eqb_refl.
  - destruct (N.eqb k k0); [discriminate|].
    intros H. now rewrite IH.
Qed.

(** ** [TaskStore.clear] *)

(** X1. [clear] makes the store forget its history: whatever calls came
    before it, the calls after it run as on a new store; right after it
    [list_all] is empty and no identifier has a record. *)
Theorem clear_forgets_history before after self :
  run (before ++ Clear :: after) self = run after init
  /\ list_all (clear self) = []
  /\ (forall task_id, get (clear self) task_id = None).
Proof.
  split; [|split; reflexivity].
  unfold run. rewrite fold_left_app. reflexivity.
Qed.

(** ** Records and their identifiers *)

Lemma call_filed_by_id c self :
  filed_by_id self -> filed_by_id (snd (call c self)).
Proof.
  intros H.
  destruct c as [| task_id | now uuid4 data | now task_id data | task_id |];
    simpl; try assumption.
  - intros k t Hin. simpl in Hin. apply dict_set_In in Hin.
    destruct Hin as [[= -> ->] | Hin]; [reflexivity | auto].
  - unfold update.
    destruct (dict_get task_id (_tasks self)) as [old|] eqn:G; [|assumption].
    destruct (dict_nonempty _); simpl; [|assumption].
    intros k t Hin. simpl in Hin. apply dict_set_In in Hin.
    destruct Hin as [[= -> ->] | Hin]; [|auto].
    simpl. apply H. now apply dict_get_Some_In.
  - unfold delete. destruct (dict_contains _ _); simpl; [|assumption].
    intros k t Hin. simpl in Hin. apply dict_del_In in Hin. auto.
  - intros k t [].
Qed.

Lemma run_filed_by_id calls :
  forall self, filed_by_id self -> filed_by_id (run calls self).
Proof.
  induction calls as [|c calls IH]; intros self H; simpl; [assumption|].
  apply IH. now apply call_filed_by_id.
Qed.

(** X2. In every store reached from a new one by calls of the store, a
    task found under an identifier has that identifier as its [id]: no
    call files a record under another key, and [update] never changes
    [id]. *)
Theorem get_returns_task_with_that_id calls task_id task :
  get (run calls init) task_id = Some task -> id task = task_id.
Proof.
  intros Hget.
  apply (run_filed_by_id calls (self := init)).
  - intros k t [].
  - now apply dict_get_Some_In.
Qed.

Lemma get_returns_task_with_that_id_witness :
  get (run sample_calls init) 7 <> None
  /\ forall task, get (run sample_calls init) 7 = Some task -> id task = 7%N.
Proof.
  split; [discriminate|].
  intros task H.
  exact (@get_returns_task_with_that_id sample_calls 7%N task H).
Defined.

(** ** [create] on an identifier in use *)

(** X3. [create] does not look whether the drawn identifier is in use:
    when it is, the new task replaces the record of that identifier in
    place. The store has as many records as before and the same keys in
    the same order, the old record is gone, and the other identifiers keep
    theirs. *)
Theorem create_on_used_id_replaces now uuid4 self data old :
  get self uuid4 = Some old ->
  let task := fst (create now uuid4 self data) in
  let self' := snd (create now uuid4 self data) in
  keys (_tasks self') = keys (_tasks self)
  /\ List.length (list_all self') = List.length (list_all self)
  /\ get self' uuid4 = Some task
  /\ title task = Some (TaskCreate.title data)
  /\ created_at task = now
  /\ (forall other, other <> uuid4 -> get self' other = get self other).
Proof.
  intros Hold task self'. subst task self'. unfold get in *. simpl.
  assert (Hk : keys (dict_set uuid4
                       {| id := uuid4; title := Some (TaskCreate.title data);
                          completed := Some false; created_at := now;
                          updated_at := now |} (_tasks self))
               = keys (_tasks self))
    by (apply keys_set_present; congruence).
  split; [exact Hk|].
  split.
  { unfold list_all. simpl.
    rewrite !(Permutation_length (sorted_reverse_perm _ _)).
    unfold values. rewrite !length_map.
    apply (f_equal (@List.length _)) in Hk. unfold keys in Hk.
    now rewrite !length_map in Hk. }
  split; [apply dict_get_set_same|].
  split; [reflexivity|]. split; [reflexivity|].
  intros other Hne. now apply dict_get_set_other.
Qed.

Lemma create_on_used_id_replaces_witness :
  get sample_store 7 = Some sample_task
  /\ get (snd (create 20 7 sample_store (TaskCreate.mk (str_of "Again")))) 7
     = Some {| id := 7; title := Some (str_of "Again");
               completed := Some false; created_at := 20; updated_at := 20 |}.
Proof.
  split; [reflexivity|].
  pose proof (@create_on_used_id_replaces 20%Z 7%N sample_store
                (TaskCreate.mk (str_of "Again")) sample_task eq_refl)
    as (_ & _ & H & _).
  exact H.
Defined.

(** ** [list_all] and [get] *)

(** X4. [list_all] lists exactly the tasks [get] can find: a task is in
    the listing if and only if some identifier has it as its record. *)
Theorem list_all_lists_what_get_finds self task :
  wf self ->
  In task (list_all self) <-> exists task_id, get self task_id = Some task.
Proof.
  intros Hwf. unfold list_all, get. split.
  - intros Hin.
    apply (Permutation_in _ (sorted_reverse_perm created_at _)) in Hin.
    unfold values in Hin. apply in_map_iff in Hin.
    destruct Hin as [[k v] [Hv Hin]]. simpl in Hv. subst v.
    exists k. now apply dict_get_In_wf.
  - intros [k Hget].
    apply (Permutation_in _
             (Permutation_sym (sorted_reverse_perm created_at _))).
    eapply dict_get_Some_value; eauto.
Qed.

Lemma list_all_lists_what_get_finds_witness :
  In sample_task (list_all sample_store)
  <-> exists task_id, get sample_store task_id = Some sample_task.
Proof.
  exact (@list_all_lists_what_get_finds sample_store sample_task
           sample_store_wf).
Defined.

(** ** [create] then [delete] *)

(** X5. Deleting a task just created under an unused identifier answers
    [True] and gives back the store as it was before the creation. *)
Theorem create_then_delete_restores now uuid4 self data :
  get self uuid4 = None ->
  delete (snd (create now uuid4 self data)) uuid4 = (true, self).
Proof.
  intros Hfresh. unfold get in Hfresh.
  unfold delete, dict_contains, create. simpl.
  rewrite dict_get_set_same.
  rewrite dict_set_absent by assumption.
  rewrite dict_del_appended by assumption.
  now destruct self.
Qed.

Lemma create_then_delete_restores_witness :
  get sample_store 8 = None
  /\ delete (snd (create 20 8 sample_store (TaskCreate.mk (str_of "x")))) 8
     = (true, sample_store).
Proof.
  split; [reflexivity|].
  exact (@create_then_delete_restores 20%Z 8%N sample_store
           (TaskCreate.mk (str_of "x")) eq_refl).
Defined.

(** ** The order of the listing *)

Section SortedMore.
Variable A : Type.
Variable key : A -> Z.

(** Sorting commutes with a map that keeps the keys. *)
Lemma sorted_reverse_map (B : Type) (key' : B -> Z) (f : A -> B) l :
  (forall x, key' (f x) = key x) ->
  map f (sorted_reverse key l) = sorted_reverse key' (map f l).
Proof.
  intros Hkey.
  assert (Hins : forall x s,
             map f (insert_desc key x s) = insert_desc key' (f x) (map f s)).
  { intros x s. induction s as [|y s IH]; simpl; [reflexivity|].
    rewrite !Hkey. destruct (Z.leb (key y) (key x)); simpl;
      [reflexivity | now rewrite IH]. }
  induction l as [|x l IH]; simpl; [reflexivity|].
  now rewrite Hins, IH.
Qed.

Lemma insert_desc_front x l :
  Forall (fun y => (key y <= key x)%Z) l -> insert_desc key x l = x :: l.
Proof.
  destruct l as [|y l]; simpl; [reflexivity|].
  intros H. inversion H as [|? ? Hy _]; subst.
  apply Z.leb_le in Hy. now rewrite Hy.
Qed.

(** An element newer than all the others, added last, sorts first. *)
Lemma sorted_reverse_snoc x l :
  Forall (fun y => (key y < key x)%Z) l ->
  sorted_reverse key (l ++ [x]) = x :: sorted_reverse key l.
Proof.
  induction 1 as [|a l Ha Hl IH]; simpl; [reflexivity|].
  rewrite IH. simpl.
  assert (E : Z.leb (key x) (key a) = false) by (apply Z.leb_gt; lia).
  now rewrite E.
Qed.

Lemma filter_insert_desc (p : A -> bool) x s :
  StronglySorted (fun a b => (key b <= key a)%Z) s ->
  filter p (insert_desc key x s)
  = if p x then insert_desc key x (filter p s) else filter p s.
Proof.
  induction 1 as [|y s Hs IH Hy].
  - simpl. now destruct (p x).
  - simpl insert_desc. destruct (Z.leb (key y) (key x)) eqn:E.
    + apply Z.leb_le in E.
      change (filter p (x :: y :: s))
        with (if p x then x :: filter p (y :: s) else filter p (y :: s)).
      destruct (p x); [|reflexivity].
      symmetry. apply insert_desc_front.
      apply Forall_forall. intros z Hz. apply filter_In in Hz.
      destruct Hz as [[<- | Hz] _]; [exact E|].
      rewrite Forall_forall in Hy. specialize (Hy z Hz). simpl in Hy. lia.
    + change (filter p (y :: insert_desc key x s))
        with (if p y then y :: filter p (insert_desc key x s)
              else filter p (insert_desc key x s)).
      rewrite IH. simpl. destruct (p y), (p x); try reflexivity.
      simpl. now rewrite E.
Qed.

(** Sorting commutes with filtering. *)
Lemma filter_sorted_reverse (p : A -> bool) l :
  filter p (sorted_reverse key l) = sorted_reverse key (filter p l).
Proof.
  induction l as [|x l IH]; simpl; [reflexivity|].
  rewrite filter_insert_desc by apply sorted_reverse_sorted.
  rewrite IH. now destruct (p x).
Qed.

Lemma filter_all (p : A -> bool) l :
  (forall x, In x l -> p x = true) -> filter p l = l.
Proof.
  induction l as [|x l IH]; simpl; [reflexivity|].
  intros H. rewrite (H x (or_introl eq_refl)). f_equal. auto.
Qed.
End SortedMore.

Lemma dict_set_same_image (B : Type) (f : Task -> B) k old new d :
  dict_get k d = Some old -> f new = f old ->
  map f (values (dict_set k new d)) = map f (values d).
Proof.
  intros Hget Hf. induction d as [|[k0 v0] d IH]; simpl in *; [discriminate|].
  destruct (N.eqb k k0); simpl.
  - injection Hget as ->. now rewrite Hf.
  - now rewrite IH.
Qed.

(** X6. An update never moves a task in the listing: whatever the partial
    and whether or not the identifier is known, [list_all] after [update]
    has the same identifiers with the same creation times in the same
    order as before. *)
Theorem update_keeps_listing_order now self task_id data :
  let self' := snd (update now self task_id data) in
  map id (list_all self') = map id (list_all self)
  /\ map created_at (list_all self') = map created_at (list_all self).
Proof.
  intros self'.
  set (f := fun t : Task => (id t, created_at t)).
  assert (Hv : map f (values (_tasks self')) = map f (values (_tasks self))).
  { subst self'. unfold update.
    destruct (dict_get task_id (_tasks self)) as [old|] eqn:G; [|reflexivity].
    destruct (dict_nonempty _); [|reflexivity].
    simpl. now apply dict_set_same_image with (old := old). }
  assert (Hl : map f (list_all self') = map f (list_all self)).
  { unfold list_all.
    rewrite !(@sorted_reverse_map _ created_at _ (@snd UUID datetime) f)
      by reflexivity.
    now rewrite Hv. }
  split.
  - apply (f_equal (map fst)) in Hl. now rewrite !map_map in Hl.
  - apply (f_equal (map snd)) in Hl. now rewrite !map_map in Hl.
Qed.

(** X7. A task created under an unused identifier at an instant later than
    the creation of every stored task comes first in the listing, the rest
    of the listing being as before. *)
Theorem create_later_lists_first now uuid4 self data :
  get self uuid4 = None ->
  (forall task, In task (values (_tasks self)) -> (created_at task < now)%Z) ->
  list_all (snd (create now uuid4 self data))
  = fst (create now uuid4 self data) :: list_all self.
Proof.
  intros Hfresh Hlater. unfold get in Hfresh.
  unfold list_all, create. simpl.
  rewrite dict_set_absent by assumption.
  unfold values. rewrite map_app. simpl.
  apply sorted_reverse_snoc. apply Forall_forall. exact Hlater.
Qed.

Lemma create_later_lists_first_witness :
  list_all (snd (create 20 8 sample_store (TaskCreate.mk (str_of "New"))))
  = [ {| id := 8; title := Some (str_of "New"); completed := Some false;
         created_at := 20; updated_at := 20 |};
      sample_task ].
Proof.
  apply (@create_later_lists_first 20%Z 8%N sample_store
           (TaskCreate.mk (str_of "New")) eq_refl).
  intros task [<- | []]. reflexivity.
Defined.

Lemma values_dict_del k d :
  wf_dict d -> (forall k' t, In (k', t) d -> id t = k') ->
  values (dict_del k d)
  = filter (fun t => negb (N.eqb (id t) k)) (values d).
Proof.
  unfold wf_dict.
  induction d as [|[k0 v0] d IH]; simpl; [reflexivity|].
  intros Hnd Hid. inversion Hnd as [|? ? Hnotin Hnd']; subst.
  rewrite (Hid k0 v0 (or_introl eq_refl)).
  rewrite (N.eqb_sym k0 k).
  destruct (N.eqb k k0) eqn:E; simpl.
  - apply N.eqb_eq in E. subst k0. symmetry. apply filter_all.
    intros t Ht. unfold values in Ht. apply in_map_iff in Ht.
    destruct Ht as [[k' t'] [Ht' Hin]]. simpl in Ht'. subst t'.
    rewrite (Hid k' t (or_intror Hin)).
    apply negb_true_iff, N.eqb_neq. intros ->. apply Hnotin.
    unfold keys. change k with (fst (k, t)). now apply in_map.
  - f_equal. apply IH; [assumption|]. intros k' t Hin. apply Hid. now right.
Qed.

(** X8. [delete] takes the task of that identifier out of the listing and
    leaves the others in their order: the listing after it is the listing
    before it without the tasks of that [id]. *)
Theorem delete_drops_from_listing self task_id :
  wf self -> filed_by_id self ->
  list_all (snd (delete self task_id))
  = filter (fun t => negb (N.eqb (id t) task_id)) (list_all self).
Proof.
  intros Hwf Hid.
  assert (E : _tasks (snd (delete self task_id))
              = dict_del task_id (_tasks self)).
  { unfold delete, dict_contains.
    destruct (dict_get task_id (_tasks self)) eqn:G; simpl; [reflexivity|].
    symmetry. now apply dict_del_absent. }
  unfold list_all. rewrite E.
  rewrite values_dict_del by assumption.
  symmetry. apply filter_sorted_reverse.
Qed.

Lemma sample_store_filed : filed_by_id sample_store.
Proof.
  intros k t [[= <- <-] | []]. reflexivity.
Qed.

Lemma delete_drops_from_listing_witness :
  list_all (snd (delete sample_store 7)) = [].
Proof.
  exact (@delete_drops_from_listing sample_store 7%N sample_store_wf
           sample_store_filed).
Defined.

(** * Further properties of the handlers *)

(** X9. A request answered 404 or 422 has not changed the store. *)
Theorem error_response_leaves_store conv now uuid4 request store :
  status (fst (app conv now uuid4 request store)) = HTTP_404_NOT_FOUND
  \/ status (fst (app conv now uuid4 request store)) = HTTP_422_UNPROCESSABLE ->
  snd (app conv now uuid4 request store) = store.
Proof.
  destruct request as [| | body | path | path body | path]; simpl;
    try reflexivity.
  - destruct (validate_post body); simpl; [|reflexivity].
    intros [H | H]; discriminate.
  - destruct (conv path) as [task_id|]; [|reflexivity].
    now destruct (get_task store task_id).
  - destruct (conv path) as [task_id|]; [|reflexivity].
    destruct (validate_patch body) as [data|]; [|reflexivity].
    unfold update_task.
    pose proof (update_None_unchanged now store task_id data) as Hu.
    destruct (update now store task_id data) as [[task|] store'];
      simpl in *.
    + intros [H | H]; discriminate.
    + intros _. now apply Hu.
  - destruct (conv path) as [task_id|]; [|reflexivity].
    unfold delete_task.
    pose proof (delete_False_unchanged store task_id) as Hd.
    destruct (delete store task_id) as [[|] store']; simpl in *.
    + intros [H | H]; discriminate.
    + intros _. now apply Hd.
Qed.

Lemma error_response_leaves_store_witness :
  status (fst (app parse_uuid 20 0 (DELETE_task unknown_path) sample_store))
  = HTTP_404_NOT_FOUND
  /\ snd (app parse_uuid 20 0 (DELETE_task unknown_path) sample_store)
     = sample_store.
Proof.
  split; [reflexivity|].
  apply (@error_response_leaves_store parse_uuid 20%Z 0%N
           (DELETE_task unknown_path) sample_store).
  left. reflexivity.
Defined.

(** X10. A PATCH on a stored task whose body validates is answered 200
    with the task in which each field present in the body has the body's
    value ([null] giving [None], [false] giving [False]) and each missing
    field has the stored value; [updated_at] is the current time when the
    body has a field and the stored one when it has none; [id] and
    [created_at] are the stored ones. That task is then the stored one. *)
Theorem patch_applies_present_fields (conv : str -> option UUID) now uuid4
    store (path : segment) task_id (body : UpdateBody.t) old :
  conv path = Some task_id ->
  get store task_id = Some old ->
  validate_TaskUpdate body <> None ->
  let new := {| id := id old;
                title := patched (UpdateBody.title body) (title old);
                completed := patched (UpdateBody.completed body) (completed old);
                created_at := created_at old;
                updated_at :=
                  if field_set (UpdateBody.title body)
                     || field_set (UpdateBody.completed body)
                  then now else updated_at old |} in
  fst (app conv now uuid4 (PATCH_task path body) store)
  = {| status := HTTP_200_OK; content := TaskJSON new |}
  /\ get (snd (app conv now uuid4 (PATCH_task path body) store)) task_id
     = Some new.
Proof.
  intros Hpath Hget Hvalid new. subst new. unfold get in *.
  unfold app, validate_patch. rewrite Hpath.
  destruct (validate_TaskUpdate body) as [data|] eqn:V; [|congruence].
  clear Hvalid. unfold validate_TaskUpdate in V.
  destruct body as [btitle bcompleted]. simpl in *.
  assert (Hdata : data
                  = {| TaskUpdate.title := field_value btitle;
                       TaskUpdate.completed := field_value bcompleted;
                       TaskUpdate.title_set := field_set btitle;
                       TaskUpdate.completed_set := field_set bcompleted |}).
  { destruct btitle as [| |s]; simpl in *; try congruence.
    destruct (string_ok s); congruence. }
  clear V. subst data.
  unfold update_task, update. rewrite Hget.
  destruct (field_set btitle || field_set bcompleted) eqn:Hset.
  - rewrite dump_some_field by exact Hset.
    rewrite model_copy_merge. simpl.
    rewrite dict_get_set_same.
    destruct btitle, bcompleted; simpl in *; try discriminate; auto.
  - rewrite dump_no_fields
      by (simpl; destruct (field_set btitle), (field_set bcompleted);
          simpl in *; congruence).
    simpl. rewrite Hget.
    destruct btitle, bcompleted; simpl in *; try discriminate.
    destruct old; auto.
Qed.

Lemma patch_applies_present_fields_witness :
  fst (app parse_uuid 20 0
         (PATCH_task sample_path (UpdateBody.mk Missing (Value true)))
         sample_store)
  = {| status := HTTP_200_OK;
       content := TaskJSON {| id := 7; title := Some (str_of "Original");
                              completed := Some true; created_at := 10;
                              updated_at := 20 |} |}.
Proof.
  refine (proj1 (@patch_applies_present_fields parse_uuid 20%Z 0%N
                   sample_store sample_path 7%N
                   (UpdateBody.mk Missing (Value true)) sample_task
                   eq_refl eq_refl _)).
  discriminate.
Defined.

(** ** The handlers act through the store *)

Lemma app_store_call conv now uuid4 request store :
  snd (app conv now uuid4 request store)
  = match store_call conv now uuid4 request with
    | Some c => snd (call c store)
    | None => store
    end.
Proof.
  destruct request as [| | body | path | path body | path]; simpl;
    try reflexivity.
  - now destruct (validate_post body).
  - destruct (conv path) as [task_id|]; [|reflexivity].
    now destruct (get_task store task_id).
  - destruct (conv path) as [task_id|]; [|reflexivity].
    destruct (validate_patch body) as [data|]; [|reflexivity].
    unfold update_task, call.
    now destruct (update now store task_id data) as [[task|] store'].
  - destruct (conv path) as [task_id|]; [|reflexivity].
    unfold delete_task, call.
    now destruct (delete store task_id) as [[|] store'].
Qed.

Lemma serve_store_calls conv events :
  forall store,
    snd (serve conv events store) = run (store_calls conv events) store.
Proof.
  induction events as [|e events IH]; intros store; [reflexivity|].
  simpl. unfold serve_one.
  pose proof (app_store_call conv (event_now e) (event_uuid4 e)
                (event_request e) store) as Hstep.
  destruct (app conv (event_now e) (event_uuid4 e) (event_request e) store)
    as [r store'] eqn:A.
  specialize (IH store').
  destruct (serve conv events store') as [rs store''] eqn:S. simpl in *.
  subst. unfold run. rewrite fold_left_app.
  now destruct (store_call conv (event_now e) (event_uuid4 e)
                  (event_request e)).
Qed.

(** X11. The handlers change the store only by calls of the store: the
    store after a request is the store after the one call the request
    leads to (none when path or body does not validate), and the store
    after a sequence of requests is the store after the sequence of those
    calls. *)
Theorem handlers_act_through_store conv :
  (forall now uuid4 request store,
      snd (app conv now uuid4 request store)
      = match store_call conv now uuid4 request with
        | Some c => snd (call c store)
        | None => store
        end)
  /\ (forall events store,
        snd (serve conv events store) = run (store_calls conv events) store).
Proof.
  split.
  - apply app_store_call.
  - intros events store. apply serve_store_calls.
Qed.

Lemma store_call_clock conv now uuid4 request c :
  store_call conv now uuid4 request = Some c ->
  clock_of c = [] \/ clock_of c = [now].
Proof.
  destruct request as [| | body | path | path body | path]; simpl.
  - discriminate.
  - intros [= <-]. now left.
  - destruct (validate_post body); intros [= <-]. now right.
  - destruct (conv path); intros [= <-]. now left.
  - destruct (conv path); [|discriminate].
    destruct (validate_patch body); intros [= <-]. now right.
  - destruct (conv path); intros [= <-]. now left.
Qed.

Lemma store_calls_clock_bound conv lo events :
  Forall (Z.le lo) (map event_now events) ->
  Forall (Z.le lo) (clock_reads (store_calls conv events)).
Proof.
  induction events as [|e events IH]; simpl; [constructor|].
  intros H. inversion H as [|? ? He Hes]; subst.
  unfold clock_reads, store_calls in *. simpl.
  rewrite flat_map_app. apply Forall_app. split; [|auto].
  destruct (store_call conv (event_now e) (event_uuid4 e) (event_request e))
    as [c|] eqn:C; simpl; [|constructor].
  rewrite app_nil_r.
  destruct (@store_call_clock _ _ _ _ _ C) as [-> | ->]; repeat constructor.
  exact He.
Qed.

Lemma store_calls_clock_sorted conv events :
  StronglySorted Z.le (map event_now events) ->
  StronglySorted Z.le (clock_reads (store_calls conv events)).
Proof.
  induction events as [|e events IH]; simpl; [constructor|].
  intros H. apply StronglySorted_inv in H. destruct H as [Hs Hall].
  pose proof (@store_calls_clock_bound conv _ _ Hall) as Hb.
  specialize (IH Hs).
  unfold clock_reads, store_calls in *. simpl.
  rewrite flat_map_app.
  destruct (store_call conv (event_now e) (event_uuid4 e) (event_request e))
    as [c|] eqn:C; simpl; [|exact IH].
  rewrite app_nil_r.
  destruct (@store_call_clock _ _ _ _ _ C) as [-> | ->]; simpl;
    [exact IH | now constructor].
Qed.

(** X12. After any sequence of requests served from a new store, with
    clock values that never decrease, the store has one record per
    identifier, each filed under its own [id], and every task has
    [updated_at >= created_at]. *)
Theorem served_store_invariants conv events :
  StronglySorted Z.le (map event_now events) ->
  let store := snd (serve conv events init) in
  wf store /\ filed_by_id store /\ timestamps_ordered store.
Proof.
  intros Hsorted store. subst store. rewrite serve_store_calls.
  split; [apply run_wf, init_wf|].
  split; [apply run_filed_by_id; intros k t []|].
  pose proof (@store_calls_clock_sorted conv _ Hsorted) as Hs.
  apply run_created_before
    with (lo := match clock_reads (store_calls conv events) with
                | [] => 0%Z
                | t :: _ => t
                end).
  - intros task [].
  - destruct (clock_reads (store_calls conv events)) as [|t rest];
      [constructor|].
    apply StronglySorted_inv in Hs. destruct Hs as [_ Hall].
    constructor; [lia | exact Hall].
  - exact Hs.
Qed.

Lemma served_store_invariants_witness :
  StronglySorted Z.le (map event_now null_title_session)
  /\ wf (snd (serve parse_uuid null_title_session init))
  /\ filed_by_id (snd (serve parse_uuid null_title_session init))
  /\ timestamps_ordered (snd (serve parse_uuid null_title_session init)).
Proof.
  assert (H : StronglySorted Z.le (map event_now null_title_session))
    by (simpl; repeat (constructor; try lia)).
  split; [exact H|].
  exact (@served_store_invariants parse_uuid null_title_session H).
Defined.

(** X13. Served from a store whose titles are all text of 1 to 200 code
    points, a sequence of requests none of which is a PATCH with an
    explicit [null] title leaves such a store: validation keeps every
    other out-of-range title out. *)
Theorem serve_keeps_titles_valid conv events :
  forall store,
    titles_valid store ->
    Forall (fun e => patches_null_title (event_request e) = false) events ->
    titles_valid (snd (serve conv events store)).
Proof.
  induction events as [|e events IH]; intros store Hinv Hno;
    [exact Hinv|].
  inversion Hno as [|? ? He Hes]; subst.
  simpl. unfold serve_one.
  pose proof (@app_keeps_titles_valid conv (event_now e) (event_uuid4 e)
                (event_request e) store) as Hstep.
  destruct (app conv (event_now e) (event_uuid4 e) (event_request e) store)
    as [r store'] eqn:A.
  specialize (IH store').
  destruct (serve conv events store') as [rs store''] eqn:S. simpl in *.
  apply IH; [|exact Hes].
  apply Hstep; [|exact Hinv].
  intros path body Hreq. rewrite Hreq in He. simpl in He.
  destruct (UpdateBody.title body); congruence.
Qed.

Lemma serve_keeps_titles_valid_witness :
  titles_valid (snd (serve parse_uuid plain_session init)).
Proof.
  apply (@serve_keeps_titles_valid parse_uuid plain_session init).
  - intros task [].
  - repeat constructor.
Defined.

(** ** A task's life through the handlers *)

Lemma dict_get_appended k v d :
  dict_get k d = None -> dict_get k (d ++ [(k, v)]) = Some v.
Proof.
  intros H. rewrite <- (@dict_set_absent k v d H). apply dict_get_set_same.
Qed.

Lemma dict_set_appended k v v' d :
  dict_get k d = None -> dict_set k v' (d ++ [(k, v)]) = d ++ [(k, v')].
Proof.
  induction d as [|[k0 v0] d IH]; simpl.
  - now rewrite N.eqb_refl.
  - destruct (N.eqb k k0); [discriminate|].
    intros H. now rewrite IH.
Qed.

(** X14. For titles [t] and [t2] that are Unicode text of 1 to 200 code
    points, a path that converts to the identifier [uuid4()] draws, and
    that identifier not in use: POST with [t] is answered 201 with the new
    task, GET of the path 200 with the same task, PATCH with title [t2] 200
    with the task renamed and [updated_at] moved to the time of the PATCH,
    DELETE 204 without body, and a last GET 404 with ["Task not found"];
    the store is then the one before the POST. *)
Theorem task_lifecycle (conv : str -> option UUID) store (path : segment)
    uuid4 t t2 n1 n2 n3 n4 n5 u2 u3 u4 u5 :
  is_text t = true ->
  length_ok t = true ->
  is_text t2 = true ->
  length_ok t2 = true ->
  conv path = Some uuid4 ->
  get store uuid4 = None ->
  let created := {| id := uuid4; title := Some t; completed := Some false;
                    created_at := n1; updated_at := n1 |} in
  let renamed := {| id := uuid4; title := Some t2; completed := Some false;
                    created_at := n1; updated_at := n3 |} in
  serve conv (lifecycle path uuid4 t t2 n1 n2 n3 n4 n5 u2 u3 u4 u5) store
  = ([ {| status := HTTP_201_CREATED; content := TaskJSON created |};
       {| status := HTTP_200_OK; content := TaskJSON created |};
       {| status := HTTP_200_OK; content := TaskJSON renamed |};
       {| status := HTTP_204_NO_CONTENT; content := NoBody |};
       not_found ],
     store).
Proof.
  intros Hx Ht Hx2 Ht2 Hpath Hfresh created renamed. unfold get in Hfresh.
  unfold lifecycle, serve, serve_one, app. simpl.
  unfold validate_TaskCreate, validate_TaskUpdate, string_ok. simpl.
  rewrite Hx, Ht, Hx2, Ht2, Hpath. simpl.
  unfold create_task, create. simpl.
  rewrite dict_set_absent by assumption.
  unfold get_task, get. simpl.
  rewrite dict_get_appended by assumption.
  unfold update_task, update. simpl.
  rewrite dict_get_appended by assumption.
  simpl. unfold model_copy. simpl.
  rewrite dict_set_appended by assumption.
  unfold delete_task, delete, dict_contains. simpl.
  rewrite dict_get_appended by assumption. simpl.
  rewrite dict_del_appended by assumption.
  rewrite Hfresh.
  now destruct store.
Qed.

Lemma task_lifecycle_witness :
  map status
    (fst (serve parse_uuid
            (lifecycle unknown_path 9 (str_of "Test task") (str_of "Updated")
               1 2 3 4 5 0 0 0 0) sample_store))
  = [201; 200; 200; 204; 404]%Z
  /\ snd (serve parse_uuid
            (lifecycle unknown_path 9 (str_of "Test task") (str_of "Updated")
               1 2 3 4 5 0 0 0 0) sample_store)
     = sample_store.
Proof.
  rewrite (@task_lifecycle parse_uuid sample_store unknown_path 9%N
             (str_of "Test task") (str_of "Updated")
             1%Z 2%Z 3%Z 4%Z 5%Z 0%N 0%N 0%N 0%N
             eq_refl eq_refl eq_refl eq_refl eq_refl eq_refl).
  split; reflexivity.
Defined.

(** ** Which requests are accepted *)





(** X17. For a path that converts to an identifier, GET is answered 200,
    PATCH (with a body that validates) 200 and DELETE 204 exactly when
    the identifier has a record in the store. *)
Theorem success_iff_stored (conv : str -> option UUID) now uuid4 store
    (path : segment) task_id (body : UpdateBody.t) data :
  conv path = Some task_id ->
  validate_TaskUpdate body = Some data ->
  (status (fst (app conv now uuid4 (GET_task path) store)) = HTTP_200_OK
   <-> get store task_id <> None)
  /\ (status (fst (app conv now uuid4 (PATCH_task path body) store))
      = HTTP_200_OK <-> get store task_id <> None)
  /\ (status (fst (app conv now uuid4 (DELETE_task path) store))
      = HTTP_204_NO_CONTENT <-> get store task_id <> None).
Proof.
  intros Hpath Hbody. unfold app, validate_patch. rewrite Hpath, Hbody.
  unfold get_task, update_task, update, delete_task, delete, dict_contains,
    get.
  destruct (dict_get task_id (_tasks store)) as [task|]; simpl.
  - split; [split; [discriminate | reflexivity]|].
    split; [|split; [discriminate | reflexivity]].
    destruct (dict_nonempty _); simpl;
      (split; [discriminate | reflexivity]).
  - repeat split; try discriminate; congruence.
Qed.

Lemma success_iff_stored_witness :
  status (fst (app parse_uuid 20 0 (DELETE_task sample_path) sample_store))
  = HTTP_204_NO_CONTENT
  <-> get sample_store 7 <> None.
Proof.
  pose proof (@success_iff_stored parse_uuid 20%Z 0%N sample_store
                sample_path 7%N null_title_body _ eq_refl eq_refl)
    as (_ & _ & H).
  exact H.
Defined.
